(** * TTSpamer: account sessions and the bounded-concurrency orchestrator

    A shallow embedding of [main.py]: the resource handler
    ([FileHandler.read_accounts], [read_comments], [read_proxies]), the
    account session ([TikTokBot.login], [process_videos], [close_session],
    [process_account]), the page actions ([_click_next_button],
    [_open_first_video], [_open_comments], [_post_comment],
    [_reply_to_comment]) and the orchestrator ([main],
    [process_with_semaphore]).

    The browser engine, the CAPTCHA solver and the file system are external
    collaborators.  They are modelled by an oracle: a state [W] and a
    function [respond] that answers every call either with a value or with a
    raised exception.  Every call, log line and sleep is recorded in a
    chronological trace, so that statements such as "the browser is closed
    before the next attempt" are statements about that trace.

    Exceptions are those of Python's class [Exception], which is what every
    [except Exception] clause of the source catches.  Task cancellation is
    outside the sequential model; at the level of the orchestrator a task may
    nevertheless end with an exception, and [gather] captures it. *)

From Stdlib Require Import ZArith List String Ascii Lia Bool.
From stdpp Require Import base list.
Import ListNotations.

Local Open Scope Z_scope.

(** ** Python values *)

(** A Python [str] is a sequence of code points. *)
Definition pystr := list N.

(** An ASCII literal of the source. *)
Definition lit (s : string) : pystr :=
  map N_of_ascii (list_ascii_of_string s).

Fixpoint starts_with (needle hay : pystr) : bool :=
  match needle, hay with
  | [], _ => true
  | _ :: _, [] => false
  | n :: ns, h :: hs => (n =? h)%N && starts_with ns hs
  end.

(** [needle in hay] on strings: substring test. *)
Fixpoint py_in (needle hay : pystr) : bool :=
  starts_with needle hay ||
  match hay with
  | [] => false
  | _ :: hs => py_in needle hs
  end.

(** [str.isspace] on one code point: the Unicode white space of CPython. *)
Definition py_isspace (c : N) : bool :=
  ((9 <=? c) && (c <=? 13) || (28 <=? c) && (c <=? 32) || (c =? 133)
   || (c =? 160) || (c =? 5760) || (8192 <=? c) && (c <=? 8202)
   || (c =? 8232) || (c =? 8233) || (c =? 8239) || (c =? 8287)
   || (c =? 12288))%N.

Fixpoint lstrip (s : pystr) : pystr :=
  match s with
  | [] => []
  | c :: s' => if py_isspace c then lstrip s' else s
  end.

(** [str.strip()] with no argument. *)
Definition strip (s : pystr) : pystr := rev (lstrip (rev (lstrip s))).

(** Truth value of a string: non-empty. *)
Definition truthy (s : pystr) : bool :=
  match s with [] => false | _ => true end.

(** ** Data model *)

Record Account := { email : pystr; password : pystr }.

Record Proxy := {
  server : pystr;
  proxy_username : option pystr;
  proxy_password : option pystr
}.

(** [BotConfig]: the settings the account session and the orchestrator
    read.  The pacing settings ([min_delay], [max_delay], [login_delay])
    only parametrise sleeps, which the trace records by kind. *)
Record BotConfig := {
  sadcaptcha_api_key : pystr;
  max_login_attempts : Z;
  headless : bool;
  comments_file : pystr;
  cycles_per_account : Z;
  min_next_clicks : Z;
  max_next_clicks : Z;
  max_concurrent_accounts : Z
}.

(** Live objects of the collaborators are named by handles. *)
Definition Handle := nat.

(** The dictionary [login] returns.  [s_browser] and [s_playwright] are
    optional because [close_session] tests whether the keys are present. *)
Record Session := {
  s_playwright : option Handle;
  s_browser : option Handle;
  s_context : Handle;
  s_page : Handle;
  s_sadcaptcha : Handle;
  s_account : Account;
  s_proxy : option Proxy
}.

(** Exceptions (all of class [Exception]). *)
Inductive exn :=
| IndexError          (* random.choice on an empty sequence *)
| ValueError          (* random.randint on an empty range *)
| DriverError (code : nat)   (* raised by the browser engine or the solver *)
| OSError (code : nat).      (* raised by the file system *)

Inductive Result (A : Type) :=
| ROk (a : A)
| RRaise (e : exn).
Arguments ROk {A} a.
Arguments RRaise {A} e.

(** Elements the login form addresses. *)
Inductive Field :=
| EmailInput       (* input[type="text"] *)
| PasswordInput    (* input[type="password"] *)
| LoginButton.     (* button[data-e2e="login-button"], button[type="submit"] *)

Inductive ShotTag := ShotForYou | ShotAfterComments.

(** Calls to the collaborators, indexed by the type of their result.  The
    [..Probe] calls stand for the selector fallback chains inside
    [_open_first_video], [_open_comments], [_post_comment],
    [_reply_to_comment] and [_click_next_button]: each chain either yields a
    boolean or raises, and the function around it catches what it raises. *)
Inductive Call : Type -> Type :=
| PlaywrightStart : Call Handle
| ChromiumLaunch (p : Handle) (hl : bool) : Call Handle
| NewContext (b : Handle) (proxy : option Proxy) : Call Handle
| NewPage (ctx : Handle) : Call Handle
| StealthAsync (page : Handle) : Call unit
| SolverInit (page : Handle) (key : pystr) : Call Handle
| PageGoto (page : Handle) (url : pystr) : Call unit
| LocatorFill (page : Handle) (f : Field) (text : pystr) : Call unit
| LocatorClick (page : Handle) (f : Field) : Call unit
| SolveCaptcha (solver : Handle) : Call unit
| PageUrl (page : Handle) : Call pystr
| BrowserClose (b : Handle) : Call unit
| PlaywrightStop (p : Handle) : Call unit
| Screenshot (page : Handle) (cycle : Z) (tag : ShotTag) : Call unit
| OpenFirstVideoProbe (page : Handle) : Call bool
| OpenCommentsProbe (page : Handle) : Call bool
| PostCommentProbe (page : Handle) (text : pystr) : Call bool
| ReplyProbe (page : Handle) (text : pystr) : Call bool
| ClickNextProbe (page : Handle) (clicks : Z) : Call bool
| ReadLines (path : pystr) : Call (list pystr).

Inductive Level := Debug | Info | Warning | Error | Success.

(** The log lines of the modelled functions. *)
Inductive LogMsg :=
| LoginAttempt (who : pystr) (attempt limit : Z)
| LoginSucceeded (who : pystr) (proxy : option Proxy)
| LoginRejected (who : pystr)
| LoginError (who : pystr) (e : exn)
| LoginGaveUp (who : pystr) (limit : Z)
| VideosStart (who : pystr)
| CycleStart (cycle : Z)
| ScreenshotFailed (e : exn)
| OpeningFirstVideo
| OpeningComments
| CommentsOpened
| CommentsNotOpened
| PostingComment
| CommentPosted (text : pystr)
| CommentNotPosted
| Replying
| ReplyPosted (text : pystr)
| ReplyNotPosted
| NextClicks (clicks : Z)
| CyclesDone (cycles : Z) (who : pystr)
| VideosError (e : exn)
| VideosTraceback
| StepError (e : exn)
| SessionClosed (who : pystr)
| CloseError (e : exn)
| AccountLoginFailed (who : pystr)
| AccountError (who : pystr) (e : exn)
| CommentsLoaded (n : nat)
| CommentsReadError (e : exn)
| DefaultCommentsUsed (n : nat)
| AccountProcessed (who : pystr) (proxy : option Proxy).

Inductive Delay := LoginDelay | MinDelay | RandomDelay.

Inductive Event :=
| ECall {A : Type} (c : Call A) (r : Result A)
| ELog (lvl : Level) (m : LogMsg)
| ESleep (d : Delay).

(** ** The monad of the account session *)

Inductive Outcome (A : Type) :=
| Ret (a : A)          (* normal completion *)
| Exc (e : exn)        (* an exception propagates *)
| OutOfFuel.           (* the loop bound of the model was too small *)
Arguments Ret {A} a.
Arguments Exc {A} e.
Arguments OutOfFuel {A}.

(** The collaborators: their state, their answer to a call, and the
    pseudo-random generator, which never raises. *)
Class Collaborators := {
  W : Type;
  respond : forall A : Type, W -> Call A -> Result A * W;
  draw : W -> N * W
}.

Section Monad.

Context {env : Collaborators}.

Record St := { world : W; trace : list Event }.

Definition M (A : Type) := St -> Outcome A * St.

Definition ret {A} (a : A) : M A := fun s => (Ret a, s).

Definition bind {A B} (m : M A) (k : A -> M B) : M B :=
  fun s =>
    match m s with
    | (Ret a, s') => k a s'
    | (Exc e, s') => (Exc e, s')
    | (OutOfFuel, s') => (OutOfFuel, s')
    end.

Definition raise {A} (e : exn) : M A := fun s => (Exc e, s).

(** [try: body except Exception as e: handler e]. *)
Definition try_except {A} (body : M A) (handler : exn -> M A) : M A :=
  fun s =>
    match body s with
    | (Exc e, s') => handler e s'
    | r => r
    end.

Definition emit (ev : Event) : M unit :=
  fun s => (Ret tt, {| world := world s; trace := trace s ++ [ev] |}).

Definition log (lvl : Level) (m : LogMsg) : M unit := emit (ELog lvl m).

Definition sleep (d : Delay) : M unit := emit (ESleep d).

(** A call to a collaborator: the oracle answers, the trace records the call
    with its answer, and a raised exception propagates. *)
Definition call {A} (c : Call A) : M A :=
  fun s =>
    let '(r, w') := respond A (world s) c in
    let s' := {| world := w'; trace := trace s ++ [ECall c r] |} in
    match r with
    | ROk a => (Ret a, s')
    | RRaise e => (Exc e, s')
    end.

(** The next pseudo-random number. *)
Definition rand : M N :=
  fun s =>
    let '(n, w') := draw (world s) in
    (Ret n, {| world := w'; trace := trace s |}).

End Monad.

Notation "x <- c1 ;; c2" := (bind c1 (fun x => c2))
  (at level 100, c1 at next level, c2 at level 200, right associativity).
Notation "c1 ;; c2" := (bind c1 (fun _ => c2))
  (at level 100, c2 at level 200, right associativity).

(** ** Resource handler and account session *)

(** The built-in pool of [read_comments], as code points. *)
Definition default_comments : list pystr := [
  (* line 106 of main.py *)
  [1055; 1086; 1083; 1085; 1086; 1089; 1090; 1100; 1102; 32; 1089; 1086; 1075; 1083; 1072; 1089; 1077; 1085; 32; 1089; 32; 1074; 1072; 1084; 1080; 33; 32; 128077]%N;
  (* line 107 of main.py *)
  [1054; 1095; 1077; 1085; 1100; 32; 1080; 1085; 1090; 1077; 1088; 1077; 1089; 1085; 1072; 1103; 32; 1090; 1086; 1095; 1082; 1072; 32; 1079; 1088; 1077; 1085; 1080; 1103; 33]%N;
  (* line 108 of main.py *)
  [1057; 1087; 1072; 1089; 1080; 1073; 1086; 32; 1079; 1072; 32; 1082; 1086; 1084; 1084; 1077; 1085; 1090; 1072; 1088; 1080; 1081; 33; 32; 128522]%N;
  (* line 109 of main.py *)
  [1042; 1099; 32; 1072; 1073; 1089; 1086; 1083; 1102; 1090; 1085; 1086; 32; 1087; 1088; 1072; 1074; 1099; 33]%N;
  (* line 110 of main.py *)
  [1069; 1090; 1086; 32; 1076; 1077; 1081; 1089; 1090; 1074; 1080; 1090; 1077; 1083; 1100; 1085; 1086; 32; 1090; 1072; 1082; 33; 32; 128175]%N;
  (* line 111 of main.py *)
  [1055; 1086; 1083; 1085; 1086; 1089; 1090; 1100; 1102; 32; 1087; 1086; 1076; 1076; 1077; 1088; 1078; 1080; 1074; 1072; 1102; 33]%N;
  (* line 112 of main.py *)
  [1054; 1090; 1083; 1080; 1095; 1085; 1099; 1081; 32; 1082; 1086; 1084; 1084; 1077; 1085; 1090; 1072; 1088; 1080; 1081; 33; 32; 128079]%N;
  (* line 113 of main.py *)
  [1057; 1086; 1075; 1083; 1072; 1089; 1077; 1085; 32; 1085; 1072; 32; 1074; 1089; 1077; 32; 49; 48; 48; 37]%N;
  (* line 114 of main.py *)
  [1058; 1072; 1082; 32; 1090; 1086; 1095; 1085; 1086; 32; 1089; 1082; 1072; 1079; 1072; 1085; 1086; 33; 32; 128076]%N;
  (* line 115 of main.py *)
  [1054; 1095; 1077; 1085; 1100; 32; 1093; 1086; 1088; 1086; 1096; 1086; 32; 1087; 1086; 1076; 1084; 1077; 1095; 1077; 1085; 1086; 33]%N
].

Definition login_url : pystr :=
  lit "https://www.tiktok.com/login/phone-or-email/email".

Definition foryou_url : pystr := lit "https://www.tiktok.com/foryou".

(** [range(lo, hi)]. *)
Definition py_range (lo hi : Z) : list Z :=
  map (fun i => lo + Z.of_nat i) (seq 0 (Z.to_nat (hi - lo))).

Section AccountSession.

Context {env : Collaborators}.

(** [self.config] and [self.comments] of the bot. *)
Variable config : BotConfig.
Variable comments : list pystr.

(** [FileHandler.read_comments]. *)
Definition read_comments : M (list pystr) :=
  try_except
    (lines <- call (ReadLines (comments_file config)) ;;
     let loaded := map strip (List.filter (fun line => truthy (strip line)) lines) in
     log Info (CommentsLoaded (length loaded)) ;;
     ret loaded)
    (fun e =>
       log Error (CommentsReadError e) ;;
       log Info (DefaultCommentsUsed (length default_comments)) ;;
       ret default_comments).

(** [random.choice]: raises on an empty sequence. *)
Definition random_choice (pool : list pystr) : M pystr :=
  match pool with
  | [] => raise IndexError
  | x :: _ => i <- rand ;; ret (nth (N.to_nat i mod length pool)%nat pool x)
  end.

(** [random.randint a b]: raises on an empty range. *)
Definition randint (a b : Z) : M Z :=
  if b <? a then raise ValueError
  else i <- rand ;; ret (a + Z.of_N i mod (b - a + 1)).

(** [asyncio.sleep(self.config.random_delay())]. *)
Definition sleep_random : M unit := rand ;; sleep RandomDelay.

Definition setup_browser (proxy_config : option Proxy)
  : M (Handle * Handle * Handle * Handle) :=
  p <- call PlaywrightStart ;;
  browser <- call (ChromiumLaunch p (headless config)) ;;
  context <- call (NewContext browser proxy_config) ;;
  page <- call (NewPage context) ;;
  call (StealthAsync page) ;;
  ret (p, browser, context, page).

(** The [except] clause of a login attempt.  [playwright] and [browser] are
    the locals of the loop body: [None] until [setup_browser] has returned. *)
Definition login_except (account : Account) (playwright browser : option Handle)
    (e : exn) : M (option Session) :=
  log Error (LoginError (email account) e) ;;
  match browser with Some b => call (BrowserClose b) | None => ret tt end ;;
  match playwright with Some p => call (PlaywrightStop p) | None => ret tt end ;;
  ret None.

(** The [try] block of a login attempt after [setup_browser].  [Some] is the
    [return] of the session; [None] lets the loop go on. *)
Definition login_steps (account : Account) (proxy : option Proxy)
    (playwright browser context page : Handle) : M (option Session) :=
  sadcaptcha <- call (SolverInit page (sadcaptcha_api_key config)) ;;
  call (PageGoto page login_url) ;;
  sleep LoginDelay ;;
  call (LocatorFill page EmailInput (email account)) ;;
  sleep MinDelay ;;
  call (LocatorFill page PasswordInput (password account)) ;;
  sleep MinDelay ;;
  call (LocatorClick page LoginButton) ;;
  sleep LoginDelay ;;
  call (SolveCaptcha sadcaptcha) ;;
  sleep LoginDelay ;;
  call (SolveCaptcha sadcaptcha) ;;
  url <- call (PageUrl page) ;;
  if negb (py_in (lit "login") url) then
    log Success (LoginSucceeded (email account) proxy) ;;
    ret (Some {| s_playwright := Some playwright;
                 s_browser := Some browser;
                 s_context := context;
                 s_page := page;
                 s_sadcaptcha := sadcaptcha;
                 s_account := account;
                 s_proxy := proxy |})
  else
    log Warning (LoginRejected (email account)) ;;
    call (BrowserClose browser) ;;
    call (PlaywrightStop playwright) ;;
    ret None.

(** One iteration of the [while] loop of [login].  The first log line is
    inside the [try] in the source; it cannot raise.  The assignment of the
    four results of [setup_browser] is atomic, so the handler sees either no
    local or both. *)
Definition login_attempt (account : Account) (proxy : option Proxy)
    (current_attempt : Z) : M (option Session) :=
  log Info (LoginAttempt (email account) current_attempt
              (max_login_attempts config)) ;;
  r <- try_except (x <- setup_browser proxy ;; ret (inl x))
                  (fun e => ret (inr e)) ;;
  match r with
  | inr e => login_except account None None e
  | inl (playwright, browser, context, page) =>
      try_except
        (login_steps account proxy playwright browser context page)
        (login_except account (Some playwright) (Some browser))
  end.

Fixpoint login_loop (fuel : nat) (account : Account) (proxy : option Proxy)
    (current_attempt : Z) : M (option Session) :=
  match fuel with
  | O => fun s => (OutOfFuel, s)
  | S fuel' =>
      if current_attempt <=? max_login_attempts config then
        r <- login_attempt account proxy current_attempt ;;
        match r with
        | Some session => ret (Some session)
        | None => login_loop fuel' account proxy (current_attempt + 1)
        end
      else
        log Error (LoginGaveUp (email account) (max_login_attempts config)) ;;
        ret None
  end.

(** [TikTokBot.login]. *)
Definition login (account : Account) (proxy : option Proxy)
  : M (option Session) :=
  login_loop (S (Z.to_nat (max_login_attempts config))) account proxy 1.

(** The five page actions: a selector chain inside [try], and an [except]
    clause that logs and returns [False]. *)
Definition _open_first_video (page : Handle) : M bool :=
  try_except (call (OpenFirstVideoProbe page))
             (fun e => log Error (StepError e) ;; ret false).

Definition _open_comments (page : Handle) : M bool :=
  try_except (call (OpenCommentsProbe page))
             (fun e => log Error (StepError e) ;; ret false).

Definition _post_comment (page : Handle) (comment_text : pystr) : M bool :=
  try_except (call (PostCommentProbe page comment_text))
             (fun e => log Error (StepError e) ;; ret false).

Definition _reply_to_comment (page : Handle) (reply_text : pystr) : M bool :=
  try_except (call (ReplyProbe page reply_text))
             (fun e => log Error (StepError e) ;; ret false).

Definition _click_next_button (page : Handle) (clicks_count : Z) : M bool :=
  try_except (call (ClickNextProbe page clicks_count))
             (fun e => log Error (StepError e) ;; ret false).

Definition take_screenshot (page : Handle) (cycle : Z) (tag : ShotTag)
  : M unit :=
  try_except (call (Screenshot page cycle tag))
             (fun e => log Warning (ScreenshotFailed e)).

(** The branch [if comments_opened:] of a cycle. *)
Definition comment_and_reply (session_data : Session) (cycle : Z) : M unit :=
  let page := s_page session_data in
  let sadcaptcha := s_sadcaptcha session_data in
  log Success CommentsOpened ;;
  sleep_random ;;
  call (SolveCaptcha sadcaptcha) ;;
  log Info PostingComment ;;
  comment_text <- random_choice comments ;;
  comment_success <- _post_comment page comment_text ;;
  (if comment_success then log Success (CommentPosted comment_text)
   else log Warning CommentNotPosted) ;;
  sleep_random ;;
  call (SolveCaptcha sadcaptcha) ;;
  log Info Replying ;;
  reply_text <- random_choice comments ;;
  reply_success <- _reply_to_comment page reply_text ;;
  (if reply_success then log Success (ReplyPosted reply_text)
   else log Warning ReplyNotPosted) ;;
  take_screenshot page cycle ShotAfterComments.

(** A cycle up to and including [_open_comments]. *)
Definition cycle_until_comments (session_data : Session) (cycle : Z)
  : M bool :=
  let page := s_page session_data in
  let sadcaptcha := s_sadcaptcha session_data in
  log Info (CycleStart cycle) ;;
  call (PageGoto page foryou_url) ;;
  sleep_random ;;
  call (SolveCaptcha sadcaptcha) ;;
  take_screenshot page cycle ShotForYou ;;
  log Info OpeningFirstVideo ;;
  _open_first_video page ;;
  sleep_random ;;
  call (SolveCaptcha sadcaptcha) ;;
  log Info OpeningComments ;;
  _open_comments page.

(** The rest of the cycle, from [if comments_opened:] on. *)
Definition cycle_after_comments (session_data : Session) (cycle : Z)
    (comments_opened : bool) : M unit :=
  (if comments_opened then comment_and_reply session_data cycle
   else log Error CommentsNotOpened) ;;
  clicks_count <- randint (min_next_clicks config) (max_next_clicks config) ;;
  log Info (NextClicks clicks_count) ;;
  _click_next_button (s_page session_data) clicks_count ;;
  sleep_random.

(** The body of the [for cycle in range(...)] loop. *)
Definition cycle_body (session_data : Session) (cycle : Z) : M unit :=
  comments_opened <- cycle_until_comments session_data cycle ;;
  cycle_after_comments session_data cycle comments_opened.

Fixpoint run_cycles (session_data : Session) (cycles : list Z) : M unit :=
  match cycles with
  | [] => ret tt
  | cycle :: rest =>
      cycle_body session_data cycle ;; run_cycles session_data rest
  end.

(** [TikTokBot.process_videos]. *)
Definition process_videos (session_data : Session) : M bool :=
  try_except
    (log Info (VideosStart (email (s_account session_data))) ;;
     run_cycles session_data (py_range 1 (cycles_per_account config + 1)) ;;
     log Success (CyclesDone (cycles_per_account config)
                    (email (s_account session_data))) ;;
     ret true)
    (fun e =>
       log Error (VideosError e) ;;
       log Error VideosTraceback ;;
       ret false).

(** [TikTokBot.close_session].  [None] is a falsy [session_data]. *)
Definition close_session (session_data : option Session) : M unit :=
  try_except
    match session_data with
    | Some sd =>
        match s_browser sd with
        | Some b => call (BrowserClose b)
        | None => ret tt
        end ;;
        match s_playwright sd with
        | Some p => call (PlaywrightStop p)
        | None => ret tt
        end ;;
        log Info (SessionClosed (email (s_account sd)))
    | None => ret tt
    end
    (fun e => log Error (CloseError e)).

(** [TikTokBot.process_account]. *)
Definition process_account (account : Account) (proxy : option Proxy)
  : M bool :=
  try_except
    (session_data <- login account proxy ;;
     match session_data with
     | Some sd =>
         process_videos sd ;;
         close_session (Some sd) ;;
         ret true
     | None =>
         log Error (AccountLoginFailed (email account)) ;;
         ret false
     end)
    (fun e => log Error (AccountError (email account) e) ;; ret false).

End AccountSession.

(** ** Orchestrator *)

(** The proxy of the account at index [i]: [proxies[i % len(proxies)]] when
    the list is truthy, [None] otherwise. *)
Definition assign_proxy (proxies : list Proxy) (i : nat) : option Proxy :=
  match proxies with
  | [] => None
  | _ :: _ => proxies !! (i mod length proxies)%nat
  end.

(** The arguments of the tasks [main] creates, in the order of
    [enumerate(accounts)]. *)
Definition create_tasks (accounts : list Account) (proxies : list Proxy)
  : list (Account * option Proxy) :=
  imap (fun i account => (account, assign_proxy proxies i)) accounts.

(** What is inside [async with semaphore] in [process_with_semaphore]; the
    duration it logs is wall-clock time and is left out of the log line. *)
Definition process_with_semaphore_body {env : Collaborators} (config : BotConfig)
    (comments : list pystr) (account : Account) (proxy : option Proxy)
  : M bool :=
  result <- process_account config comments account proxy ;;
  log Info (AccountProcessed (email account) proxy) ;;
  ret result.

Definition initial {env : Collaborators} (w : W) : St :=
  {| world := w; trace := [] |}.

(** Each account task drives a browser of its own, so each task has its own
    collaborator state: [worlds i] is the one task [i] starts in.  The
    outcome of awaiting the task body is then a function of the task. *)
Definition session_task {env : Collaborators} (config : BotConfig)
    (comments : list pystr) (worlds : nat -> W)
    (i : nat) (account : Account) (proxy : option Proxy) : Outcome bool :=
  fst (process_with_semaphore_body config comments account proxy
         (initial (worlds i))).

(** *** The gate and the tasks as a transition system

    [asyncio.Semaphore] holds a counter; [async with semaphore] waits until
    the counter is positive and decrements it, and increments it when the
    block is left, by [return] or by an exception.  [asyncio.gather] with
    [return_exceptions=True] completes when every task is done and returns
    one entry per task, in task order: the returned value or the captured
    exception. *)

Inductive Phase :=
| Waiting                   (* created, before the gate *)
| LoggingIn                 (* inside the gate, in [login] *)
| InSession                 (* inside the gate, [login] returned a session *)
| Closed                    (* inside the gate, no session any more *)
| Done (r : Outcome bool).  (* left the gate *)

Definition holds_gate (ph : Phase) : bool :=
  match ph with
  | LoggingIn | InSession | Closed => true
  | Waiting | Done _ => false
  end.

Definition holds_session (ph : Phase) : bool :=
  match ph with
  | InSession => true
  | _ => false
  end.

Record OState := { sem : Z; phases : list Phase }.

Inductive Action :=
| Acquire (i : nat)       (* the gate admits task [i] *)
| LoginOk (i : nat)       (* [login] returns a session *)
| LoginFailed (i : nat)   (* [login] returns [None] *)
| CloseSession (i : nat)  (* [close_session] *)
| Leave (i : nat).        (* the block is left, by return or exception *)

Definition move (i : nat) (ph : Phase) (dsem : Z) (st : OState) : OState :=
  {| sem := sem st + dsem; phases := <[i := ph]> (phases st) |}.

(** One step; [None] when the action is not enabled.  [outcomes] gives what
    awaiting each task body ends with. *)
Definition apply_action (outcomes : list (Outcome bool)) (a : Action)
    (st : OState) : option OState :=
  match a with
  | Acquire i =>
      match phases st !! i with
      | Some Waiting =>
          if 0 <? sem st then Some (move i LoggingIn (-1) st) else None
      | _ => None
      end
  | LoginOk i =>
      match phases st !! i with
      | Some LoggingIn => Some (move i InSession 0 st)
      | _ => None
      end
  | LoginFailed i =>
      match phases st !! i with
      | Some LoggingIn => Some (move i Closed 0 st)
      | _ => None
      end
  | CloseSession i =>
      match phases st !! i with
      | Some InSession => Some (move i Closed 0 st)
      | _ => None
      end
  | Leave i =>
      match phases st !! i, outcomes !! i with
      | Some ph, Some r =>
          if holds_gate ph then Some (move i (Done r) 1 st) else None
      | _, _ => None
      end
  end.

Definition step (outcomes : list (Outcome bool)) (st st' : OState) : Prop :=
  exists a, apply_action outcomes a st = Some st'.

Fixpoint run_schedule (outcomes : list (Outcome bool)) (sched : list Action)
    (st : OState) : option OState :=
  match sched with
  | [] => Some st
  | a :: sched' =>
      match apply_action outcomes a st with
      | Some st' => run_schedule outcomes sched' st'
      | None => None
      end
  end.

(** The state after [asyncio.Semaphore(c)] and the creation of [n] tasks. *)
Definition init_state (c : Z) (n : nat) : OState :=
  {| sem := c; phases := replicate n Waiting |}.

Definition reachable (outcomes : list (Outcome bool)) (c : Z) (st : OState)
  : Prop :=
  exists sched,
    run_schedule outcomes sched (init_state c (length outcomes)) = Some st.

Definition active_count (st : OState) : nat :=
  length (List.filter holds_gate (phases st)).

Definition session_count (st : OState) : nat :=
  length (List.filter holds_session (phases st)).

Definition result_of (ph : Phase) : option (Outcome bool) :=
  match ph with
  | Done r => Some r
  | _ => None
  end.

(** What [gather] returns once every task is done. *)
Definition gather_results (st : OState) : option (list (Outcome bool)) :=
  mapM result_of (phases st).

(** [result is True]. *)
Definition is_True (r : Outcome bool) : bool :=
  match r with
  | Ret true => true
  | _ => false
  end.

(** [sum(1 for result in results if result is True)]. *)
Definition count_success (results : list (Outcome bool)) : nat :=
  length (List.filter is_True results).

(** One task after the other: a schedule every positive gate admits. *)
Definition sequential_schedule (n : nat) : list Action :=
  flat_map (fun i => [Acquire i; LoginOk i; CloseSession i; Leave i])
           (seq 0 n).

Record Summary := {
  results : list (Outcome bool);
  processed : nat;       (* accounts processed, in the final log line *)
  succeeded : nat        (* [success_count], in the final log line *)
}.

Inductive MainOutcome :=
| NoAccounts               (* the error line, then [return] *)
| SemaphoreRaises          (* [asyncio.Semaphore] rejects a negative value *)
| NeverCompletes           (* no task passes the gate *)
| Completed (s : Summary).

(** [main], with the task bodies abstracted by what awaiting them ends
    with: [run_task i account proxy] for the task at index [i]. *)
Definition main_with (run_task : nat -> Account -> option Proxy -> Outcome bool)
    (config : BotConfig) (accounts : list Account) (proxies : list Proxy)
  : MainOutcome :=
  match accounts with
  | [] => NoAccounts
  | _ :: _ =>
      if max_concurrent_accounts config <? 0 then SemaphoreRaises
      else
        let tasks := create_tasks accounts proxies in
        let outcomes := imap (fun i t => run_task i (fst t) (snd t)) tasks in
        match
          run_schedule outcomes (sequential_schedule (length tasks))
            (init_state (max_concurrent_accounts config) (length tasks))
        with
        | Some st =>
            match gather_results st with
            | Some rs =>
                Completed {| results := rs;
                             processed := length accounts;
                             succeeded := count_success rs |}
            | None => NeverCompletes
            end
        | None => NeverCompletes
        end
  end.

(** [main] on the account sessions of this program. *)
Definition main {env : Collaborators} (config : BotConfig) (comments : list pystr)
    (worlds : nat -> W) (accounts : list Account) (proxies : list Proxy)
  : MainOutcome :=
  main_with (session_task config comments worlds) config accounts proxies.

(** ** Observations on traces *)

Definition count (p : Event -> bool) (t : list Event) : nat :=
  length (List.filter p t).

(** The log line that opens a login attempt. *)
Definition is_attempt (ev : Event) : bool :=
  match ev with
  | ELog _ (LoginAttempt _ _ _) => true
  | _ => false
  end.

Definition is_browser_close (ev : Event) : bool :=
  match ev with
  | ECall (BrowserClose _) _ => true
  | _ => false
  end.

Definition is_driver_stop (ev : Event) : bool :=
  match ev with
  | ECall (PlaywrightStop _) _ => true
  | _ => false
  end.

(** The first thing [process_videos] does when it is invoked. *)
Definition is_videos_start (ev : Event) : bool :=
  match ev with
  | ELog _ (VideosStart _) => true
  | _ => false
  end.

Definition is_cycle_start (ev : Event) : bool :=
  match ev with
  | ELog _ (CycleStart _) => true
  | _ => false
  end.

(** The comment step: from its log line to the call of [_post_comment]. *)
Definition is_comment_step (ev : Event) : bool :=
  match ev with
  | ELog _ PostingComment => true
  | ECall (PostCommentProbe _ _) _ => true
  | _ => false
  end.

Definition is_reply_step (ev : Event) : bool :=
  match ev with
  | ELog _ Replying => true
  | ECall (ReplyProbe _ _) _ => true
  | _ => false
  end.

(** The feed advance: the call inside [_click_next_button]. *)
Definition is_advance (ev : Event) : bool :=
  match ev with
  | ECall (ClickNextProbe _ _) _ => true
  | _ => false
  end.

(** The error line of the handler of [process_videos]. *)
Definition is_videos_error (ev : Event) : bool :=
  match ev with
  | ELog _ (VideosError _) => true
  | _ => false
  end.

(** A driver was started: [async_playwright().start()] returned. *)
Definition is_driver_start (ev : Event) : bool :=
  match ev with
  | ECall PlaywrightStart (ROk _) => true
  | _ => false
  end.

Definition drivers_started (t : list Event) : nat := count is_driver_start t.
Definition attempts (t : list Event) : nat := count is_attempt t.
Definition browser_closes (t : list Event) : nat := count is_browser_close t.
Definition driver_stops (t : list Event) : nat := count is_driver_stop t.

Fixpoint remove_one (h : Handle) (l : list Handle) : list Handle :=
  match l with
  | [] => []
  | x :: l' => if Nat.eqb h x then l' else x :: remove_one h l'
  end.

Definition no_handle (l : list Handle) : bool :=
  match l with [] => true | _ => false end.

(** Instances alive along a trace: drivers started and not stopped, browsers
    launched and not closed; [clean] records that none was alive whenever a
    login attempt began. *)
Record Live := {
  live_drivers : list Handle;
  live_browsers : list Handle;
  clean : bool
}.

Definition live0 : Live :=
  {| live_drivers := []; live_browsers := []; clean := true |}.

Definition track (l : Live) (ev : Event) : Live :=
  match ev with
  | ECall PlaywrightStart (ROk p) =>
      {| live_drivers := p :: live_drivers l;
         live_browsers := live_browsers l; clean := clean l |}
  | ECall (ChromiumLaunch _ _) (ROk b) =>
      {| live_drivers := live_drivers l;
         live_browsers := b :: live_browsers l; clean := clean l |}
  | ECall (BrowserClose b) (ROk _) =>
      {| live_drivers := live_drivers l;
         live_browsers := remove_one b (live_browsers l); clean := clean l |}
  | ECall (PlaywrightStop p) (ROk _) =>
      {| live_drivers := remove_one p (live_drivers l);
         live_browsers := live_browsers l; clean := clean l |}
  | ELog _ (LoginAttempt _ _ _) =>
      {| live_drivers := live_drivers l;
         live_browsers := live_browsers l;
         clean := clean l && no_handle (live_drivers l)
                  && no_handle (live_browsers l) |}
  | _ => l
  end.

Definition liveness (t : list Event) : Live := fold_left track t live0.

(** ** Reference collaborators

    Collaborators without state, whose answers are fixed by a script; they
    serve as concrete inputs. *)

Record Script := {
  start_answer : Result Handle;       (* [async_playwright().start()] *)
  url_answer : pystr;                 (* [page.url] *)
  close_answer : Result unit;         (* [browser.close()] *)
  foryou_answer : Result unit;        (* [page.goto] of the feed *)
  open_comments_answer : Result bool; (* the chain of [_open_comments] *)
  lines_answer : Result (list pystr)  (* reading the comments file *)
}.

Definition scripted_respond (sc : Script) (A : Type) (w : unit) (c : Call A)
  : Result A * unit :=
  (match c in Call T return Result T with
   | PlaywrightStart => start_answer sc
   | ChromiumLaunch _ _ => ROk 2%nat
   | NewContext _ _ => ROk 3%nat
   | NewPage _ => ROk 4%nat
   | StealthAsync _ => ROk tt
   | SolverInit _ _ => ROk 5%nat
   | PageGoto _ url =>
       if py_in (lit "foryou") url then foryou_answer sc else ROk tt
   | LocatorFill _ _ _ => ROk tt
   | LocatorClick _ _ => ROk tt
   | SolveCaptcha _ => ROk tt
   | PageUrl _ => ROk (url_answer sc)
   | BrowserClose _ => close_answer sc
   | PlaywrightStop _ => ROk tt
   | Screenshot _ _ _ => ROk tt
   | OpenFirstVideoProbe _ => ROk true
   | OpenCommentsProbe _ => open_comments_answer sc
   | PostCommentProbe _ _ => ROk true
   | ReplyProbe _ _ => ROk true
   | ClickNextProbe _ _ => ROk true
   | ReadLines _ => lines_answer sc
   end, w).

Definition scripted (sc : Script) : Collaborators :=
  {| W := unit;
     respond := scripted_respond sc;
     draw := fun w => (0%N, w) |}.

(** Every step succeeds and the login is accepted. *)
Definition all_good : Script :=
  {| start_answer := ROk 1%nat;
     url_answer := foryou_url;
     close_answer := ROk tt;
     foryou_answer := ROk tt;
     open_comments_answer := ROk true;
     lines_answer := ROk [lit "nice"; lit " "; lit "great video "] |}.

(** The login page stays: the URL keeps the marker. *)
Definition login_rejected : Script :=
  {| start_answer := ROk 1%nat;
     url_answer := login_url;
     close_answer := ROk tt;
     foryou_answer := ROk tt;
     open_comments_answer := ROk true;
     lines_answer := ROk [] |}.

(** The login is accepted and closing the browser raises. *)
Definition close_raises : Script :=
  {| start_answer := ROk 1%nat;
     url_answer := foryou_url;
     close_answer := RRaise (DriverError 7);
     foryou_answer := ROk tt;
     open_comments_answer := ROk true;
     lines_answer := ROk [] |}.

(** The login page stays and closing the browser raises. *)
Definition rejected_close_raises : Script :=
  {| start_answer := ROk 1%nat;
     url_answer := login_url;
     close_answer := RRaise (DriverError 7);
     foryou_answer := ROk tt;
     open_comments_answer := ROk true;
     lines_answer := ROk [] |}.

(** The comment panel never opens. *)
Definition comments_stay_closed : Script :=
  {| start_answer := ROk 1%nat;
     url_answer := foryou_url;
     close_answer := ROk tt;
     foryou_answer := ROk tt;
     open_comments_answer := ROk false;
     lines_answer := ROk [] |}.

(** The login is accepted and the feed cannot be loaded. *)
Definition feed_unreachable : Script :=
  {| start_answer := ROk 1%nat;
     url_answer := foryou_url;
     close_answer := ROk tt;
     foryou_answer := RRaise (DriverError 9);
     open_comments_answer := ROk true;
     lines_answer := ROk [] |}.



Definition start (sc : Script) : @St (scripted sc) :=
  @initial (scripted sc) tt.

(** The defaults of [_set_defaults] with one session at a time. *)
Definition one_at_a_time : BotConfig :=
  {| sadcaptcha_api_key := lit "API_KEY";
     max_login_attempts := 3;
     headless := false;
     comments_file := lit "comments.txt";
     cycles_per_account := 1;
     min_next_clicks := 1;
     max_next_clicks := 3;
     max_concurrent_accounts := 1 |}.

(** A gate that admits nobody. *)
Definition closed_gate : BotConfig :=
  {| sadcaptcha_api_key := lit "API_KEY";
     max_login_attempts := 3;
     headless := false;
     comments_file := lit "comments.txt";
     cycles_per_account := 1;
     min_next_clicks := 1;
     max_next_clicks := 3;
     max_concurrent_accounts := 0 |}.

(** A click window whose bounds are swapped. *)
Definition swapped_clicks : BotConfig :=
  {| sadcaptcha_api_key := lit "API_KEY";
     max_login_attempts := 3;
     headless := false;
     comments_file := lit "comments.txt";
     cycles_per_account := 2;
     min_next_clicks := 3;
     max_next_clicks := 1;
     max_concurrent_accounts := 3 |}.

Definition sample_config (login_limit cycles : Z) : BotConfig :=
  {| sadcaptcha_api_key := lit "API_KEY";
     max_login_attempts := login_limit;
     headless := false;
     comments_file := lit "comments.txt";
     cycles_per_account := cycles;
     min_next_clicks := 1;
     max_next_clicks := 3;
     max_concurrent_accounts := 3 |}.

Definition alice : Account :=
  {| email := lit "alice@example.com"; password := lit "secret" |}.

Definition bob : Account :=
  {| email := lit "bob@example.com"; password := lit "hunter2" |}.

Definition proxy_a : Proxy :=
  {| server := lit "http://10.0.0.1:8080";
     proxy_username := None; proxy_password := None |}.

Definition proxy_b : Proxy :=
  {| server := lit "http://10.0.0.2:8080";
     proxy_username := Some (lit "u"); proxy_password := Some (lit "p") |}.

(** The session [login] builds under the scripts above. *)
Definition sample_session : Session :=
  {| s_playwright := Some 1%nat;
     s_browser := Some 2%nat;
     s_context := 3%nat;
     s_page := 4%nat;
     s_sadcaptcha := 5%nat;
     s_account := alice;
     s_proxy := None |}.


(** ** Statements shared by several results *)

(** A finished task carries the outcome of its own body. *)
Definition results_agree (outcomes : list (Outcome bool)) (st : OState) : Prop :=
  forall i r, phases st !! i = Some (Done r) -> outcomes !! i = Some r.

(** The tasks [main] awaits end with these outcomes. *)
Definition task_outcomes
    (run_task : nat -> Account -> option Proxy -> Outcome bool)
    (accounts : list Account) (proxies : list Proxy) : list (Outcome bool) :=
  imap (fun i t => run_task i (fst t) (snd t)) (create_tasks accounts proxies).

(** The orchestrator completes and reports: one result per account, each the
    outcome of that account's own task, the number of accounts as processed
    count and the number of tasks that returned [True] as success count. *)
Definition orchestrator_reports
    (run_task : nat -> Account -> option Proxy -> Outcome bool)
    (config : BotConfig) (accounts : list Account) (proxies : list Proxy)
  : Prop :=
  exists s,
    main_with run_task config accounts proxies = Completed s /\
    length (results s) = length accounts /\
    processed s = length accounts /\
    succeeded s = count_success (task_outcomes run_task accounts proxies) /\
    forall i a,
      accounts !! i = Some a ->
      results s !! i = Some (run_task i a (assign_proxy proxies i)).

(** The computation never exhausts the loop bound of the model. *)
Definition terminates {env : Collaborators} {A} (m : M A) : Prop :=
  forall s, fst (m s) <> OutOfFuel.

(** The computation returns normally from every state: it neither raises
    nor exhausts the loop bound. *)
Definition returns {env : Collaborators} {A} (m : M A) : Prop :=
  forall s, exists a, fst (m s) = Ret a.

(** The computation only appends events of the class [P] to the trace. *)
Definition emits {env : Collaborators} {A} (P : Event -> bool) (m : M A)
  : Prop :=
  forall s, exists t, trace (snd (m s)) = trace s ++ t /\ forallb P t = true.

(** What [login] may do: its own log lines, its sleeps, and calls to the
    driver and the solver. *)
Definition is_login_event (ev : Event) : bool :=
  match ev with
  | ELog _ (LoginAttempt _ _ _) | ELog _ (LoginSucceeded _ _)
  | ELog _ (LoginRejected _) | ELog _ (LoginError _ _)
  | ELog _ (LoginGaveUp _ _) => true
  | ESleep LoginDelay | ESleep MinDelay => true
  | ECall PlaywrightStart _ | ECall (ChromiumLaunch _ _) _
  | ECall (NewContext _ _) _ | ECall (NewPage _) _
  | ECall (StealthAsync _) _ | ECall (SolverInit _ _) _
  | ECall (PageGoto _ _) _ | ECall (LocatorFill _ _ _) _
  | ECall (LocatorClick _ _) _ | ECall (SolveCaptcha _) _
  | ECall (PageUrl _) _ | ECall (BrowserClose _) _
  | ECall (PlaywrightStop _) _ => true
  | _ => false
  end.

(** The events of [process_videos] and of the page actions it calls. *)
Definition is_engagement_event (ev : Event) : bool :=
  match ev with
  | ELog _ (VideosStart _) | ELog _ (CycleStart _) | ELog _ OpeningFirstVideo
  | ELog _ OpeningComments | ELog _ CommentsOpened | ELog _ CommentsNotOpened
  | ELog _ PostingComment | ELog _ (CommentPosted _) | ELog _ CommentNotPosted
  | ELog _ Replying | ELog _ (ReplyPosted _) | ELog _ ReplyNotPosted
  | ELog _ (NextClicks _) | ELog _ (CyclesDone _ _) | ELog _ (VideosError _)
  | ELog _ VideosTraceback | ELog _ (StepError _)
  | ELog _ (ScreenshotFailed _) => true
  | ESleep RandomDelay => true
  | ECall (Screenshot _ _ _) _ | ECall (OpenFirstVideoProbe _) _
  | ECall (OpenCommentsProbe _) _ | ECall (PostCommentProbe _ _) _
  | ECall (ReplyProbe _ _) _ | ECall (ClickNextProbe _ _) _ => true
  | _ => false
  end.

(** The driver can always be started. *)
Definition driver_starts (env : Collaborators) : Prop :=
  forall w, exists p, fst (respond _ w PlaywrightStart) = ROk p.

(** The launch of the browser raises, on every started driver. *)
Definition launch_refused (env : Collaborators) : Prop :=
  forall w p h, exists e, fst (respond _ w (ChromiumLaunch p h)) = RRaise e.

(** C3 as stated, on the outcome of [login] and the events it added: as
    many attempts as the limit, as many releases, and [None] at the end. *)
Definition login_claim (limit : Z) (o : Outcome (option Session))
    (t : list Event) : Prop :=
  o = Ret None /\
  attempts t = Z.to_nat limit /\
  browser_closes t = Z.to_nat limit /\
  driver_stops t = Z.to_nat limit.






Arguments py_in : simpl never.
Arguments lit : simpl never.

(** Unfolds the monad and splits on the answer of every call in turn. *)
Ltac unfold_monad :=
  unfold try_except, bind, ret, raise, log, sleep, emit, call, rand in *.

(** A call that the hypothesis [Hok] makes succeed. *)
Ltac call_ok Hok :=
  match goal with
  | |- context [respond ?A ?w ?c] =>
      let a := fresh "a" in
      let Ha := fresh "Ha" in
      let E := fresh "E" in
      destruct (Hok A c w eq_refl) as [a Ha];
      destruct (respond A w c) as [? ?] eqn:E;
      cbn [fst] in Ha; subst; cbn [fst snd world trace] in *
  end.

Ltac split_respond :=
  match goal with
  | |- context [respond ?A ?w ?c] =>
      let E := fresh "E" in
      destruct (respond A w c) as [[?|?] ?] eqn:E; cbn [fst snd world trace] in *
  | |- context [draw ?w] =>
      let E := fresh "E" in
      destruct (draw w) as [? ?] eqn:E; cbn [fst snd world trace] in *
  end.

(** What [process_videos] may do: the events of the engagement phase, page
    loads and CAPTCHA checks. *)
Definition is_videos_event (ev : Event) : bool :=
  is_engagement_event ev ||
  match ev with
  | ECall (PageGoto _ _) _ | ECall (SolveCaptcha _) _ => true
  | _ => false
  end.

(** ** The accounts file and the proxies file *)

Definition colon : N := 58.

(** [s.split(sep, 1)] for a one-character separator: one part when the
    separator does not occur, two parts otherwise. *)
Fixpoint split_once (sep : N) (s : pystr) : list pystr :=
  match s with
  | [] => [[]]
  | c :: s' =>
      if (c =? sep)%N then [[]; s']
      else match split_once sep s' with
           | p :: ps => (c :: p) :: ps
           | [] => [[c]]
           end
  end.

(** [s.split(sep)] for a one-character separator. *)
Fixpoint split_all (sep : N) (s : pystr) : list pystr :=
  match s with
  | [] => [[]]
  | c :: s' =>
      match split_all sep s' with
      | p :: ps => if (c =? sep)%N then [] :: p :: ps else (c :: p) :: ps
      | [] => [[]]
      end
  end.

(** What [open] and the iteration over the file give: the lines yielded,
    and the exception that ends the reading, if any ([open] itself raising
    yields no line). *)
Record FileRead := { yielded : list pystr; failure : option exn }.

(** The log line a reader ends with: the count at level info, the warning
    for a missing proxies file, or the error. *)
Inductive LoadReport :=
| Loaded (n : nat)
| FileMissing
| LoadFailed (e : exn).

(** The [for line in f] loop of [read_accounts]; unpacking anything but two
    parts raises. *)
Fixpoint accounts_loop (lines : list pystr) (accounts : list Account)
  : list Account * option exn :=
  match lines with
  | [] => (accounts, None)
  | line :: rest =>
      if py_in [colon] line then
        match split_once colon (strip line) with
        | [e; p] =>
            accounts_loop rest (accounts ++ [{| email := e; password := p |}])
        | _ => (accounts, Some ValueError)
        end
      else accounts_loop rest accounts
  end.

(** [FileHandler.read_accounts]: the list is filled as the lines are read
    and returned whether or not the reading failed. *)
Definition read_accounts (f : FileRead) : list Account * LoadReport :=
  match accounts_loop (yielded f) [] with
  | (accounts, Some e) => (accounts, LoadFailed e)
  | (accounts, None) =>
      match failure f with
      | Some e => (accounts, LoadFailed e)
      | None => (accounts, Loaded (length accounts))
      end
  end.

(** The server URL of a proxy entry: [f"{proxy_type}://{host}:{port}"]. *)
Definition proxy_server (proxy_type host port : pystr) : pystr :=
  proxy_type ++ lit "://" ++ host ++ colon :: port.

(** The body of the loop of [read_proxies] on one line: the proxy it
    appends, if any.  Four parts or more give credentials, exactly two parts
    give none, anything else is skipped. *)
Definition parse_proxy (proxy_type line : pystr) : option Proxy :=
  let line := strip line in
  if truthy line then
    match split_all colon line with
    | p0 :: p1 :: p2 :: p3 :: _ =>
        Some {| server := proxy_server proxy_type p0 p1;
                proxy_username := Some p2;
                proxy_password := Some p3 |}
    | [p0; p1] =>
        Some {| server := proxy_server proxy_type p0 p1;
                proxy_username := None;
                proxy_password := None |}
    | _ => None
    end
  else None.

(** [FileNotFoundError] is the [OSError] with [errno] 2. *)
Definition is_not_found (e : exn) : bool :=
  match e with
  | OSError 2 => true
  | _ => false
  end.

(** [FileHandler.read_proxies], for [self.config.proxy_type]. *)
Definition read_proxies (proxy_type : pystr) (f : FileRead)
  : list Proxy * LoadReport :=
  let proxies := omap (parse_proxy proxy_type) (yielded f) in
  match failure f with
  | None => (proxies, Loaded (length proxies))
  | Some e =>
      (proxies, if is_not_found e then FileMissing else LoadFailed e)
  end.

(** The number of separators in a string. *)
Definition separators (sep : N) (s : pystr) : nat :=
  length (List.filter (N.eqb sep) s).

(** ** Counting events and constraining values *)

(** The computation adds exactly [n] events of the class [P] to the trace,
    however it ends. *)
Definition adds_always {env : Collaborators} {A} (P : Event -> bool) (n : nat)
    (m : M A) : Prop :=
  forall s, exists t, trace (snd (m s)) = trace s ++ t /\ count P t = n.

(** The computation adds at most [n] events of the class [P], and exactly
    [n] when it returns. *)
Definition adds {env : Collaborators} {A} (P : Event -> bool) (n : nat)
    (m : M A) : Prop :=
  forall s, exists t,
    trace (snd (m s)) = trace s ++ t /\
    (count P t <= n)%nat /\
    forall a, fst (m s) = Ret a -> count P t = n.

(** Every value the computation returns satisfies [Q]. *)
Definition yields {env : Collaborators} {A} (Q : A -> Prop) (m : M A) : Prop :=
  forall s a, fst (m s) = Ret a -> Q a.

(** Comments and replies are posted with a text of the pool. *)
Definition posts_from (pool : list pystr) (ev : Event) : bool :=
  match ev with
  | ECall (PostCommentProbe _ text) _ => bool_decide (text ∈ pool)
  | ECall (ReplyProbe _ text) _ => bool_decide (text ∈ pool)
  | _ => true
  end.

(** The feed is advanced by a number of clicks inside the window. *)
Definition clicks_within (lo hi : Z) (ev : Event) : bool :=
  match ev with
  | ECall (ClickNextProbe _ clicks) _ => (lo <=? clicks) && (clicks <=? hi)
  | _ => true
  end.

(** A release call that raised. *)
Definition is_failed_release (e : exn) (ev : Event) : Prop :=
  (exists b, ev = ECall (BrowserClose b) (RRaise e)) \/
  (exists p, ev = ECall (PlaywrightStop p) (RRaise e)).

(** A collaborator under which everything works except the launch of the
    browser. *)
Definition launch_fails : Collaborators :=
  {| W := unit;
     respond := fun A w c =>
       match c in Call T return Result T * unit with
       | ChromiumLaunch _ _ => (RRaise (DriverError 3), w)
       | c' => scripted_respond all_good _ w c'
       end;
     draw := fun w => (0%N, w) |}.


Definition not_attempt (ev : Event) : bool := negb (is_attempt ev).

Definition not_release (ev : Event) : bool :=
  negb (is_browser_close ev) && negb (is_driver_stop ev).

(** The comments posted come from the pool and the clicks from the window. *)
Definition moderate (pool : list pystr) (lo hi : Z) (ev : Event) : bool :=
  posts_from pool ev && clicks_within lo hi ev.

Definition not_cycle_start (ev : Event) : bool := negb (is_cycle_start ev).
Definition not_advance (ev : Event) : bool := negb (is_advance ev).
Definition not_videos_error (ev : Event) : bool := negb (is_videos_error ev).

Definition sample_proxy_file : FileRead :=
  {| yielded := [lit "10.0.0.1:8080:user:pw"; lit "x"; lit "10.0.0.2:3128"];
     failure := None |}.

(** ** The page actions in detail

    [_click_next_button], [_open_first_video], [_open_comments],
    [_post_comment] and [_reply_to_comment], with their chains of selectors.
    They talk to the page through the calls below; the selectors of a chain
    are named by the chain and their position in the list of the source. *)

Inductive Chain :=
| NextButton      (* button_selectors of _click_next_button, 6 entries *)
| Video           (* video_selectors of _open_first_video, 5 entries *)
| CommentIcon     (* comment_selectors of _open_comments, 5 entries *)
| CommentInput    (* input_selectors of _post_comment, 6 entries *)
| PostButton      (* post_selectors of _post_comment, 5 entries *)
| ReplyButton     (* reply_selectors of _reply_to_comment, 4 entries *)
| CommentItem.    (* comment_selectors of _reply_to_comment, 3 entries *)

Record Selector := { chain : Chain; position : nat }.

Definition selectors (c : Chain) (n : nat) : list Selector :=
  map (fun i => {| chain := c; position := i |}) (seq 0 n).

(** The scripts given to [page.evaluate]. *)
Inductive Snippet := ClickNextScript | ClickVideoScript | ClickCommentsScript.

Inductive Key := KeyN | KeyC | KeyEnter | KeyTab.

(** The texts [_reply_to_comment] looks for with [get_by_text]. *)
Inductive ReplyWord := ReplyRu | ReplyEn.

Inductive PageCall : Type -> Type :=
| Evaluate (page : Handle) (js : Snippet) : PageCall bool
| LocatorCount (page : Handle) (sel : Selector) : PageCall Z
| FirstClick (page : Handle) (sel : Selector) : PageCall unit
| FirstFill (page : Handle) (sel : Selector) (text : pystr) : PageCall unit
| FirstType (page : Handle) (sel : Selector) (text : pystr) : PageCall unit
| KeyboardPress (page : Handle) (k : Key) : PageCall unit
| KeyboardType (page : Handle) (text : pystr) : PageCall unit
| MouseWheel (page : Handle) (dy : Z) : PageCall unit
| NthVisible (page : Handle) (sel : Selector) (index : Z) : PageCall bool
| NthClick (page : Handle) (sel : Selector) (index : Z) : PageCall unit
| TextClick (page : Handle) (word : ReplyWord) : PageCall unit.

Inductive Pause := PauseMin | PauseRandom | PauseTenth.

(** A log line of a page action: its level and the exception it reports. *)
Inductive PageEvent :=
| PCall {A : Type} (c : PageCall A) (r : Result A)
| PLog (lvl : Level) (about : option exn)
| PSleep (p : Pause).

Class PageDriver := {
  PW : Type;
  page_respond : forall A : Type, PW -> PageCall A -> Result A * PW;
  page_draw : PW -> N * PW
}.

Section PageMonad.

Context {drv : PageDriver}.

Record PSt := { pworld : PW; ptrace : list PageEvent }.

Definition PM (A : Type) := PSt -> Outcome A * PSt.

Definition pret {A} (a : A) : PM A := fun s => (Ret a, s).

Definition pbind {A B} (m : PM A) (k : A -> PM B) : PM B :=
  fun s =>
    match m s with
    | (Ret a, s') => k a s'
    | (Exc e, s') => (Exc e, s')
    | (OutOfFuel, s') => (OutOfFuel, s')
    end.

(** [try: body except Exception as e: handler e]. *)
Definition ptry {A} (body : PM A) (handler : exn -> PM A) : PM A :=
  fun s =>
    match body s with
    | (Exc e, s') => handler e s'
    | r => r
    end.

Definition praise {A} (e : exn) : PM A := fun s => (Exc e, s).

Definition pemit (ev : PageEvent) : PM unit :=
  fun s => (Ret tt, {| pworld := pworld s; ptrace := ptrace s ++ [ev] |}).

Definition plog (lvl : Level) (about : option exn) : PM unit :=
  pemit (PLog lvl about).

Definition pcall {A} (c : PageCall A) : PM A :=
  fun s =>
    let '(r, w') := page_respond A (pworld s) c in
    let s' := {| pworld := w'; ptrace := ptrace s ++ [PCall c r] |} in
    match r with
    | ROk a => (Ret a, s')
    | RRaise e => (Exc e, s')
    end.

(** [asyncio.sleep] of [min_delay], of a freshly drawn [random_delay()], or
    of a tenth of a second. *)
Definition psleep (p : Pause) : PM unit :=
  match p with
  | PauseRandom =>
      fun s =>
        let '(_, w') := page_draw (pworld s) in
        (Ret tt, {| pworld := w'; ptrace := ptrace s ++ [PSleep p] |})
  | _ => pemit (PSleep p)
  end.

(** The next pseudo-random number. *)
Definition prand : PM N :=
  fun s =>
    let '(n, w') := page_draw (pworld s) in
    (Ret n, {| pworld := w'; ptrace := ptrace s |}).

End PageMonad.

Notation "x <~ c1 ;; c2" := (pbind c1 (fun x => c2))
  (at level 100, c1 at next level, c2 at level 200, right associativity).
Notation "c1 ;~ c2" := (pbind c1 (fun _ => c2))
  (at level 100, c2 at level 200, right associativity).

Section PageActions.

Context {drv : PageDriver}.

(** [random.randint a b]: raises on an empty range. *)
Definition prandint (a b : Z) : PM Z :=
  if b <? a then praise ValueError
  else i <~ prand ;; pret (a + Z.of_N i mod (b - a + 1)).

(** [for _ in range(n): await page.locator(selector).first.click()], with
    the debug line and the pause after each click. *)
Fixpoint click_times (page : Handle) (sel : Selector) (n : nat) : PM unit :=
  match n with
  | O => pret tt
  | S n' =>
      pcall (FirstClick page sel) ;~
      plog Debug None ;~
      psleep PauseMin ;~
      click_times page sel n'
  end.

(** The first loop of [_click_next_button]: clicks through the script until
    it reports no button, the count is reached or it raises; the result is
    the variable [success]. *)
Fixpoint script_clicks (page : Handle) (n : nat) (success : bool) : PM bool :=
  match n with
  | O => pret success
  | S n' =>
      r <~ ptry (x <~ pcall (Evaluate page ClickNextScript) ;; pret (Some x))
                (fun e => plog Debug (Some e) ;~ pret None) ;;
      match r with
      | Some true =>
          plog Debug None ;~ psleep PauseMin ;~ script_clicks page n' true
      | Some false => pret success
      | None => pret success
      end
  end.

(** The loop over [button_selectors]: the first selector that matches and
    takes all the clicks ends it with [True]. *)
Fixpoint selector_clicks (page : Handle) (sels : list Selector) (n : nat)
  : PM bool :=
  match sels with
  | [] => pret false
  | sel :: rest =>
      done <~ ptry
        (count <~ pcall (LocatorCount page sel) ;;
         if 0 <? count then click_times page sel n ;~ pret true
         else pret false)
        (fun e => plog Debug (Some e) ;~ pret false) ;;
      if done then pret true else selector_clicks page rest n
  end.

Fixpoint press_times (page : Handle) (k : Key) (n : nat) : PM unit :=
  match n with
  | O => pret tt
  | S n' =>
      pcall (KeyboardPress page k) ;~
      plog Debug None ;~
      psleep PauseMin ;~
      press_times page k n'
  end.

(** [_click_next_button(page, clicks_count)]. *)
Definition click_next_button (page : Handle) (clicks_count : Z) : PM bool :=
  let n := Z.to_nat clicks_count in
  ptry
    (success <~ script_clicks page n false ;;
     success <~ (if success then pret true
                 else selector_clicks page (selectors NextButton 6) n) ;;
     if success then pret true
     else press_times page KeyN n ;~ pret true)
    (fun e => plog Error (Some e) ;~ pret false).

(** A loop that clicks the first match of the first selector that has one
    and returns [True]; [False] lets the caller go on. *)
Fixpoint click_first_match (page : Handle) (sels : list Selector) : PM bool :=
  match sels with
  | [] => pret false
  | sel :: rest =>
      done <~ ptry
        (count <~ pcall (LocatorCount page sel) ;;
         if 0 <? count then
           pcall (FirstClick page sel) ;~ psleep PauseRandom ;~ pret true
         else pret false)
        (fun e => plog Debug (Some e) ;~ pret false) ;;
      if done then pret true else click_first_match page rest
  end.

(** [_open_first_video(page)].  The result of the script is not looked at:
    the function returns [True] as soon as [page.evaluate] returns. *)
Definition open_first_video (page : Handle) : PM bool :=
  ptry
    (done <~ ptry
       (pcall (Evaluate page ClickVideoScript) ;~
        psleep PauseRandom ;~ pret true)
       (fun e => plog Debug (Some e) ;~ pret false) ;;
     if done then pret true
     else
       done <~ click_first_match page (selectors Video 5) ;;
       if done then pret true
       else plog Warning None ;~ pret false)
    (fun e => plog Error (Some e) ;~ pret false).

(** [_open_comments(page)]. *)
Definition open_comments (page : Handle) : PM bool :=
  ptry
    (done <~ ptry
       (result <~ pcall (Evaluate page ClickCommentsScript) ;;
        if result then psleep PauseRandom ;~ pret true else pret false)
       (fun e => plog Debug (Some e) ;~ pret false) ;;
     if done then pret true
     else
       done <~ click_first_match page (selectors CommentIcon 5) ;;
       if done then pret true
       else
         ptry (pcall (KeyboardPress page KeyC) ;~
               psleep PauseRandom ;~ pret true)
              (fun e => plog Debug (Some e) ;~ pret false))
    (fun e => plog Error (Some e) ;~ pret false).

(** The loop over [post_selectors]: the variable [post_success]. *)
Fixpoint click_post_button (page : Handle) (sels : list Selector) : PM bool :=
  match sels with
  | [] => pret false
  | sel :: rest =>
      done <~ ptry
        (count <~ pcall (LocatorCount page sel) ;;
         if 0 <? count then pcall (FirstClick page sel) ;~ pret true
         else pret false)
        (fun _ => pret false) ;;
      if done then pret true else click_post_button page rest
  end.

(** The text goes into the field by [fill], else by [type], else through the
    keyboard. *)
Definition enter_text (page : Handle) (sel : Selector) (text : pystr)
  : PM unit :=
  ptry (pcall (FirstFill page sel text))
       (fun _ =>
          ptry (pcall (FirstType page sel text))
               (fun _ => pcall (KeyboardType page text))).

(** The loop over [input_selectors] of [_post_comment] and of
    [_reply_to_comment], which differ in the selectors of the field and of
    the post button. *)
Fixpoint post_through_input (page : Handle) (sels posts : list Selector)
    (text : pystr) : PM bool :=
  match sels with
  | [] => pret false
  | sel :: rest =>
      done <~ ptry
        (count <~ pcall (LocatorCount page sel) ;;
         if 0 <? count then
           pcall (FirstClick page sel) ;~
           psleep PauseMin ;~
           enter_text page sel text ;~
           psleep PauseMin ;~
           post_success <~ click_post_button page posts ;;
           (if post_success then pret tt
            else pcall (KeyboardPress page KeyEnter)) ;~
           psleep PauseRandom ;~
           pret true
         else pret false)
        (fun e => plog Debug (Some e) ;~ pret false) ;;
      if done then pret true else post_through_input page rest posts text
  end.

(** [_post_comment(page, comment_text)]. *)
Definition post_comment (page : Handle) (comment_text : pystr) : PM bool :=
  ptry
    (done <~ post_through_input page (selectors CommentInput 6)
               (selectors PostButton 5) comment_text ;;
     if done then pret true
     else
       pcall (KeyboardPress page KeyTab) ;~
       psleep PauseMin ;~
       pcall (KeyboardType page comment_text) ;~
       psleep PauseTenth ;~
       pcall (KeyboardPress page KeyEnter) ;~
       psleep PauseRandom ;~
       pret true)
    (fun e => plog Error (Some e) ;~ pret false).

(** [post_selectors] of [_reply_to_comment]: those of [_post_comment] but
    the third. *)
Definition reply_post_selectors : list Selector :=
  [ {| chain := PostButton; position := 0 |};
    {| chain := PostButton; position := 1 |};
    {| chain := PostButton; position := 3 |};
    {| chain := PostButton; position := 4 |} ].

(** [random.randint(0, min(count - 1, 5))]. *)
Definition pick_index (count : Z) : PM Z :=
  prandint 0 (Z.min (count - 1) 5).

(** The loop over [reply_selectors]: a visible reply button is clicked and
    the reply goes through the first input field that takes it. *)
Fixpoint reply_through_buttons (page : Handle) (sels : list Selector)
    (text : pystr) : PM bool :=
  match sels with
  | [] => pret false
  | sel :: rest =>
      done <~ ptry
        (count <~ pcall (LocatorCount page sel) ;;
         if 0 <? count then
           index <~ pick_index count ;;
           visible <~ pcall (NthVisible page sel index) ;;
           if visible then
             pcall (NthClick page sel index) ;~
             psleep PauseRandom ;~
             post_through_input page (selectors CommentInput 3)
               reply_post_selectors text
           else pret false
         else pret false)
        (fun e => plog Debug (Some e) ;~ pret false) ;;
      if done then pret true else reply_through_buttons page rest text
  end.

(** [for text in reply_texts]: click the word, type the reply, press Enter;
    a failure anywhere moves on to the next word. *)
Fixpoint reply_by_text (page : Handle) (words : list ReplyWord)
    (text : pystr) : PM bool :=
  match words with
  | [] => pret false
  | word :: rest =>
      done <~ ptry
        (pcall (TextClick page word) ;~
         psleep PauseMin ;~
         pcall (KeyboardType page text) ;~
         psleep PauseMin ;~
         pcall (KeyboardPress page KeyEnter) ;~
         psleep PauseRandom ;~
         pret true)
        (fun _ => pret false) ;;
      if done then pret true else reply_by_text page rest text
  end.

(** The loop over [comment_selectors]. *)
Fixpoint reply_through_comments (page : Handle) (sels : list Selector)
    (text : pystr) : PM bool :=
  match sels with
  | [] => pret false
  | sel :: rest =>
      done <~ ptry
        (count <~ pcall (LocatorCount page sel) ;;
         if 0 <? count then
           index <~ pick_index count ;;
           pcall (NthClick page sel index) ;~
           psleep PauseMin ;~
           reply_by_text page [ReplyRu; ReplyEn] text
         else pret false)
        (fun e => plog Debug (Some e) ;~ pret false) ;;
      if done then pret true else reply_through_comments page rest text
  end.

(** [_reply_to_comment(page, reply_text)]. *)
Definition reply_to_comment (page : Handle) (reply_text : pystr) : PM bool :=
  ptry
    (ptry (dy <~ prandint 200 300 ;;
           pcall (MouseWheel page dy) ;~ psleep PauseMin)
          (fun _ => pret tt) ;~
     done <~ reply_through_buttons page (selectors ReplyButton 4) reply_text ;;
     if done then pret true
     else
       done <~ reply_through_comments page (selectors CommentItem 3)
                 reply_text ;;
       if done then pret true
       else plog Warning None ;~ pret false)
    (fun e => plog Error (Some e) ;~ pret false).

End PageActions.

Definition pterminates {drv : PageDriver} {A} (m : PM A) : Prop :=
  forall s, fst (m s) <> OutOfFuel.

Definition preturns {drv : PageDriver} {A} (m : PM A) : Prop :=
  forall s, exists a, fst (m s) = Ret a.

(** The computation only appends events of the class [P] to the trace. *)
Definition pemits {drv : PageDriver} {A} (P : PageEvent -> bool) (m : PM A)
  : Prop :=
  forall s, exists t, ptrace (snd (m s)) = ptrace s ++ t /\ forallb P t = true.

(** Every value the computation returns satisfies [Q]. *)
Definition pyields {drv : PageDriver} {A} (Q : A -> Prop) (m : PM A) : Prop :=
  forall s a, fst (m s) = Ret a -> Q a.

(** Every line but those of the outermost handlers, which log at Error
    level. *)
Definition not_error_line (ev : PageEvent) : bool :=
  match ev with
  | PLog Error _ => false
  | _ => true
  end.

(** A comment is addressed by a position among the first six. *)
Definition among_first_six (ev : PageEvent) : bool :=
  match ev with
  | PCall (NthVisible _ _ i) _ => (0 <=? i) && (i <=? 5)
  | PCall (NthClick _ _ i) _ => (0 <=? i) && (i <=? 5)
  | _ => true
  end.

(** What the script loop of [_click_next_button] does: script calls, debug
    lines and pauses. *)
Definition is_script_event (ev : PageEvent) : bool :=
  match ev with
  | PCall (Evaluate _ ClickNextScript) _ => true
  | PLog Debug _ => true
  | PSleep PauseMin => true
  | _ => false
  end.

(** What [_reply_to_comment] may add to the trace. *)
Definition is_reply_event (ev : PageEvent) : bool :=
  not_error_line ev && among_first_six ev.

(** A click or a key press. *)
Definition is_input_event (ev : PageEvent) : bool :=
  match ev with
  | PCall (FirstClick _ _) _ | PCall (NthClick _ _ _) _
  | PCall (TextClick _ _) _ | PCall (KeyboardPress _ _) _
  | PCall (KeyboardType _ _) _ | PCall (FirstFill _ _ _) _
  | PCall (FirstType _ _ _) _ => true
  | _ => false
  end.

(** A driver whose script reports that it found nothing, and one whose
    every call raises. *)
Definition nothing_found : PageDriver :=
  {| PW := unit;
     page_respond := fun A w c =>
       (match c in PageCall T return Result T with
        | Evaluate _ _ => ROk false
        | LocatorCount _ _ => ROk 0
        | FirstClick _ _ => ROk tt
        | FirstFill _ _ _ => ROk tt
        | FirstType _ _ _ => ROk tt
        | KeyboardPress _ _ => ROk tt
        | KeyboardType _ _ => ROk tt
        | MouseWheel _ _ => ROk tt
        | NthVisible _ _ _ => ROk false
        | NthClick _ _ _ => ROk tt
        | TextClick _ _ => ROk tt
        end, w);
     page_draw := fun w => (0%N, w) |}.

Definition page_gone : PageDriver :=
  {| PW := unit;
     page_respond := fun A w c => (RRaise (DriverError 4), w);
     page_draw := fun w => (0%N, w) |}.

(** A driver whose script clicks once and then finds no button. *)
Definition one_click_only : PageDriver :=
  {| PW := nat;
     page_respond := fun A w c =>
       match c in PageCall T return Result T * nat with
       | Evaluate _ _ => (ROk (Nat.eqb w 0), S w)
       | LocatorCount _ _ => (ROk 1, w)
       | FirstClick _ _ => (ROk tt, w)
       | FirstFill _ _ _ => (ROk tt, w)
       | FirstType _ _ _ => (ROk tt, w)
       | KeyboardPress _ _ => (ROk tt, w)
       | KeyboardType _ _ => (ROk tt, w)
       | MouseWheel _ _ => (ROk tt, w)
       | NthVisible _ _ _ => (ROk true, w)
       | NthClick _ _ _ => (ROk tt, w)
       | TextClick _ _ => (ROk tt, w)
       end;
     page_draw := fun w => (0%N, w) |}.

(** A driver that finds nothing and whose random source always gives
    [n]. *)
Definition always_draws (n : N) : PageDriver :=
  {| PW := unit;
     page_respond := @page_respond nothing_found;
     page_draw := fun w => (n, w) |}.

Definition pstart {drv : PageDriver} (w : PW) : PSt :=
  {| pworld := w; ptrace := [] |}.

(** The calls of the keyboard fallback of [_post_comment]. *)
Definition is_fallback_call (page : Handle) (text : pystr) (ev : PageEvent)
    (e : exn) : Prop :=
  ev = PCall (KeyboardPress page KeyTab) (RRaise e) \/
  ev = PCall (KeyboardType page text) (RRaise e) \/
  ev = PCall (KeyboardPress page KeyEnter) (RRaise e).

Definition no_input (ev : PageEvent) : bool := negb (is_input_event ev).

Ltac unfold_page :=
  unfold ptry, pbind, pret, praise, plog, psleep, pemit, pcall, prand in *.

Ltac split_page :=
  match goal with
  | |- context [page_respond ?A ?w ?c] =>
      let E := fresh "E" in
      destruct (page_respond A w c) as [[?|?] ?] eqn:E;
      cbn [fst snd pworld ptrace] in *
  | |- context [page_draw ?w] =>
      let E := fresh "E" in
      destruct (page_draw w) as [? ?] eqn:E; cbn [fst snd pworld ptrace] in *
  end.
(** * Properties *)

(** ** Proxy assignment *)

Lemma create_tasks_length (accounts : list Account) (proxies : list Proxy) :
  length (create_tasks accounts proxies) = length accounts.
Proof. unfold create_tasks. apply length_imap. Qed.

Lemma create_tasks_lookup (accounts : list Account) (proxies : list Proxy)
    (i : nat) :
  create_tasks accounts proxies !! i =
  (fun a => (a, assign_proxy proxies i)) <$> accounts !! i.
Proof. unfold create_tasks. apply list_lookup_imap. Qed.

(** C5.  The account at index [i] gets the proxy at index
    [i mod len(proxies)] of a non-empty proxy list, and no proxy when the
    list is empty.  [create_tasks] is a function of the two lists alone: no
    random draw enters it. *)
Theorem proxy_round_robin (accounts : list Account) (proxies : list Proxy)
    (i : nat) (a : Account) :
  accounts !! i = Some a ->
  (proxies = [] -> create_tasks accounts proxies !! i = Some (a, None)) /\
  (proxies <> [] ->
   exists p, proxies !! (i mod length proxies)%nat = Some p /\
             create_tasks accounts proxies !! i = Some (a, Some p)).
Proof.
  intros Ha. rewrite create_tasks_lookup, Ha. simpl. split.
  - intros ->. reflexivity.
  - intros Hne. destruct proxies as [|p0 ps]; [congruence|].
    assert (Hlt : (i mod length (p0 :: ps) < length (p0 :: ps))%nat).
    { apply Nat.mod_upper_bound. simpl. lia. }
    destruct (lookup_lt_is_Some_2 _ _ Hlt) as [p Hp].
    exists p. split; [exact Hp|].
    unfold assign_proxy. now rewrite Hp.
Qed.

Lemma proxy_round_robin_witness :
  [alice; bob; alice] !! 2%nat = Some alice /\
  create_tasks [alice; bob; alice] [proxy_a; proxy_b] !! 2%nat
  = Some (alice, Some proxy_a).
Proof.
  split; [reflexivity|].
  destruct (proxy_round_robin [alice; bob; alice] [proxy_a; proxy_b] 2 alice
              eq_refl) as [_ Hne].
  destruct (Hne ltac:(discriminate)) as (p & Hp & Ht).
  simpl in Hp. injection Hp as <-. exact Ht.
Defined.

(** ** The gate *)

Lemma count_insert (f : Phase -> bool) (l : list Phase) (i : nat)
    (old new : Phase) :
  l !! i = Some old ->
  (length (List.filter f (<[i:=new]> l)) + (if f old then 1 else 0)
   = length (List.filter f l) + (if f new then 1 else 0))%nat.
Proof.
  revert i. induction l as [|x l IH]; intros [|i] Hi; simpl in *;
    try discriminate.
  - injection Hi as ->. destruct (f old), (f new); simpl; lia.
  - specialize (IH i Hi). destruct (f x); simpl; lia.
Qed.

(** What one step does to the counter and to the tasks inside the gate. *)
Lemma apply_action_gate (outcomes : list (Outcome bool)) (a : Action)
    (st st' : OState) :
  apply_action outcomes a st = Some st' ->
  length (phases st') = length (phases st) /\
  sem st' + Z.of_nat (active_count st') = sem st + Z.of_nat (active_count st) /\
  (0 <= sem st -> 0 <= sem st') /\
  sem st' = sem st + match a with
                     | Acquire _ => -1
                     | Leave _ => 1
                     | _ => 0
                     end.
Proof.
  unfold active_count.
  destruct a as [i|i|i|i|i]; simpl;
    destruct (phases st !! i) as [ph|] eqn:Hi; try discriminate.
  1-4: destruct ph; try discriminate.
  - destruct (0 <? sem st) eqn:Hs; [|discriminate].
    apply Z.ltb_lt in Hs. intros [= <-]. simpl.
    pose proof (count_insert holds_gate _ _ _ LoggingIn Hi) as Hc.
    simpl in Hc. rewrite length_insert. repeat split; lia.
  - intros [= <-]. simpl.
    pose proof (count_insert holds_gate _ _ _ InSession Hi) as Hc.
    simpl in Hc. rewrite length_insert. repeat split; lia.
  - intros [= <-]. simpl.
    pose proof (count_insert holds_gate _ _ _ Closed Hi) as Hc.
    simpl in Hc. rewrite length_insert. repeat split; lia.
  - intros [= <-]. simpl.
    pose proof (count_insert holds_gate _ _ _ Closed Hi) as Hc.
    simpl in Hc. rewrite length_insert. repeat split; lia.
  - destruct (outcomes !! i) as [r|]; [|discriminate].
    destruct (holds_gate ph) eqn:Hg; [|discriminate].
    intros [= <-]. simpl.
    pose proof (count_insert holds_gate _ _ _ (Done r) Hi) as Hc.
    rewrite Hg in Hc. simpl in Hc. rewrite length_insert. repeat split; lia.
Qed.

Lemma run_schedule_gate (outcomes : list (Outcome bool)) (sched : list Action) :
  forall st st',
    run_schedule outcomes sched st = Some st' ->
    length (phases st') = length (phases st) /\
    sem st' + Z.of_nat (active_count st') = sem st + Z.of_nat (active_count st) /\
    (0 <= sem st -> 0 <= sem st').
Proof.
  induction sched as [|a sched IH]; intros st st' Hrun; simpl in Hrun.
  - injection Hrun as <-. auto.
  - destruct (apply_action outcomes a st) as [st1|] eqn:Ha; [|discriminate].
    destruct (apply_action_gate _ _ _ _ Ha) as (Hl & Hs & Hp & _).
    destruct (IH _ _ Hrun) as (Hl' & Hs' & Hp').
    repeat split; [congruence | lia | auto].
Qed.

Lemma sessions_inside_gate (st : OState) :
  (session_count st <= active_count st)%nat.
Proof.
  unfold session_count, active_count.
  induction (phases st) as [|ph l IH]; simpl; [lia|].
  destruct ph; simpl; lia.
Qed.

Lemma active_count_init (c : Z) (n : nat) : active_count (init_state c n) = 0%nat.
Proof.
  unfold active_count, init_state. simpl.
  induction n as [|n IH]; simpl; auto.
Qed.

(** C1.  In every state a run can reach, the tasks inside the gate are at
    most [max_concurrent_accounts]; a session exists only inside the gate;
    the counter and the tasks inside the gate always add up to the limit,
    that is, every task took one unit when it entered and gave one unit back
    when it left, however it left. *)
Theorem gate_bounds_active_sessions (outcomes : list (Outcome bool)) (c : Z)
    (st : OState) :
  0 <= c ->
  reachable outcomes c st ->
  Z.of_nat (active_count st) <= c /\
  Z.of_nat (session_count st) <= c /\
  sem st + Z.of_nat (active_count st) = c /\
  forall a st',
    apply_action outcomes a st = Some st' ->
    sem st' = sem st + match a with
                       | Acquire _ => -1
                       | Leave _ => 1
                       | _ => 0
                       end.
Proof.
  intros Hc [sched Hrun].
  destruct (run_schedule_gate _ _ _ _ Hrun) as (_ & Hs & Hp).
  rewrite active_count_init in Hs. simpl in Hs, Hp.
  pose proof (sessions_inside_gate st). specialize (Hp Hc).
  repeat split; try lia.
  intros a st' Ha. now destruct (apply_action_gate _ _ _ _ Ha) as (_ & _ & _ & ?).
Qed.

Lemma gate_bounds_active_sessions_witness :
  reachable [Ret true; Ret false; Exc IndexError] 2
    {| sem := 0; phases := [InSession; LoggingIn; Waiting] |} /\
  Z.of_nat (active_count
              {| sem := 0; phases := [InSession; LoggingIn; Waiting] |}) <= 2.
Proof.
  assert (Hr : reachable [Ret true; Ret false; Exc IndexError] 2
                 {| sem := 0; phases := [InSession; LoggingIn; Waiting] |}).
  { exists [Acquire 0; Acquire 1; LoginOk 0]. reflexivity. }
  split; [exact Hr|].
  apply (gate_bounds_active_sessions
           [Ret true; Ret false; Exc IndexError] 2 _ ltac:(lia) Hr).
Defined.

(** ** Gathering the results *)

Lemma lookup_middle_at {A} (pre post : list A) (x : A) (k : nat) :
  length pre = k -> (pre ++ x :: post) !! k = Some x.
Proof. intros <-. now apply list_lookup_middle. Qed.

Lemma insert_middle_at {A} (pre post : list A) (x y : A) (k : nat) :
  length pre = k -> <[k:=y]> (pre ++ x :: post) = pre ++ y :: post.
Proof.
  intros <-. rewrite insert_app_r_alt by lia.
  now rewrite Nat.sub_diag.
Qed.

(** The sequential schedule runs task [k], with the tasks before it done and
    the tasks after it waiting. *)
Lemma sequential_task (outcomes : list (Outcome bool)) (c : Z) (k : nat)
    (pre post : list Phase) (r : Outcome bool) :
  1 <= c ->
  length pre = k ->
  outcomes !! k = Some r ->
  run_schedule outcomes [Acquire k; LoginOk k; CloseSession k; Leave k]
    {| sem := c; phases := pre ++ Waiting :: post |}
  = Some {| sem := c; phases := pre ++ Done r :: post |}.
Proof.
  intros Hc Hk Hr.
  assert (Hs : (0 <? c) = true) by (apply Z.ltb_lt; lia).
  cbn [run_schedule apply_action]. unfold move. cbn [sem phases].
  rewrite (lookup_middle_at pre post Waiting k Hk), Hs. cbn [sem phases].
  rewrite (insert_middle_at pre post Waiting LoggingIn k Hk).
  rewrite (lookup_middle_at pre post LoggingIn k Hk). cbn [sem phases].
  rewrite (insert_middle_at pre post LoggingIn InSession k Hk).
  rewrite (lookup_middle_at pre post InSession k Hk). cbn [sem phases].
  rewrite (insert_middle_at pre post InSession Closed k Hk).
  rewrite (lookup_middle_at pre post Closed k Hk), Hr.
  cbn [holds_gate sem phases].
  rewrite (insert_middle_at pre post Closed (Done r) k Hk).
  do 2 f_equal. lia.
Qed.

Lemma run_schedule_app (outcomes : list (Outcome bool)) (s1 s2 : list Action)
    (st : OState) :
  run_schedule outcomes (s1 ++ s2) st =
  match run_schedule outcomes s1 st with
  | Some st' => run_schedule outcomes s2 st'
  | None => None
  end.
Proof.
  revert st. induction s1 as [|a s1 IH]; intros st; simpl; [reflexivity|].
  destruct (apply_action outcomes a st); auto.
Qed.

Lemma sequential_from (outcomes : list (Outcome bool)) (c : Z) (m : nat) :
  1 <= c ->
  forall k,
    (k + m)%nat = length outcomes ->
    run_schedule outcomes
      (flat_map (fun i => [Acquire i; LoginOk i; CloseSession i; Leave i])
                (seq k m))
      {| sem := c; phases := (Done <$> take k outcomes) ++ replicate m Waiting |}
    = Some {| sem := c; phases := Done <$> outcomes |}.
Proof.
  intros Hc. induction m as [|m IH]; intros k Hk.
  - simpl. rewrite app_nil_r, take_ge by lia. reflexivity.
  - assert (Hlt : (k < length outcomes)%nat) by lia.
    destruct (lookup_lt_is_Some_2 _ _ Hlt) as [r Hr].
    change (seq k (S m)) with (k :: seq (S k) m).
    change (flat_map ?f (k :: ?l)) with (f k ++ flat_map f l).
    rewrite run_schedule_app.
    change (replicate (S m) Waiting) with (Waiting :: replicate m Waiting).
    rewrite (sequential_task outcomes c k _ _ r Hc); [| |exact Hr].
    + rewrite <- (IH (S k)) by lia.
      rewrite (take_S_r _ _ _ Hr), fmap_app, <- app_assoc. reflexivity.
    + rewrite length_fmap, length_take. lia.
Qed.

Lemma sequential_completes (outcomes : list (Outcome bool)) (c : Z) :
  1 <= c ->
  run_schedule outcomes (sequential_schedule (length outcomes))
    (init_state c (length outcomes))
  = Some {| sem := c; phases := Done <$> outcomes |}.
Proof.
  intros Hc. unfold sequential_schedule, init_state.
  now rewrite <- (sequential_from outcomes c (length outcomes) Hc 0%nat).
Qed.

Lemma gather_results_done (rs : list (Outcome bool)) (c : Z) :
  gather_results {| sem := c; phases := Done <$> rs |} = Some rs.
Proof. unfold gather_results. simpl. now apply mapM_fmap_Some. Qed.

Lemma gather_results_inv (st : OState) (rs : list (Outcome bool)) :
  gather_results st = Some rs -> phases st = Done <$> rs.
Proof.
  unfold gather_results. intros Hm. symmetry.
  apply (mapM_fmap_Some_inv result_of Done _ _ Hm).
  intros [] y; simpl; congruence.
Qed.

Lemma apply_action_agree (outcomes : list (Outcome bool)) (a : Action)
    (st st' : OState) :
  apply_action outcomes a st = Some st' ->
  results_agree outcomes st -> results_agree outcomes st'.
Proof.
  intros Ha Hag j r' Hj.
  destruct a as [i|i|i|i|i]; simpl in Ha;
    destruct (phases st !! i) as [ph|] eqn:Hi; try discriminate.
  1-4: destruct ph; try discriminate.
  1: destruct (0 <? sem st); [|discriminate].
  1-4: injection Ha as <-; simpl in Hj;
       apply list_lookup_insert_Some in Hj as [(_ & ? & _)|(_ & Hj)];
       [discriminate | now apply Hag].
  destruct (outcomes !! i) as [r|] eqn:Hr; [|discriminate].
  destruct (holds_gate ph); [|discriminate].
  injection Ha as <-. simpl in Hj.
  apply list_lookup_insert_Some in Hj as [(-> & Heq & _)|(_ & Hj)].
  - injection Heq as <-. exact Hr.
  - now apply Hag.
Qed.

Lemma run_schedule_agree (outcomes : list (Outcome bool)) (sched : list Action) :
  forall st st',
    run_schedule outcomes sched st = Some st' ->
    results_agree outcomes st -> results_agree outcomes st'.
Proof.
  induction sched as [|a sched IH]; intros st st' Hrun Hag; simpl in Hrun.
  - now injection Hrun as <-.
  - destruct (apply_action outcomes a st) as [st1|] eqn:Ha; [|discriminate].
    eauto using apply_action_agree.
Qed.

(** Whatever the interleaving, a completed [gather] returns the outcomes of
    the task bodies, in task order. *)
Lemma gather_any_schedule (outcomes : list (Outcome bool)) (c : Z)
    (sched : list Action) (st : OState) (rs : list (Outcome bool)) :
  run_schedule outcomes sched (init_state c (length outcomes)) = Some st ->
  gather_results st = Some rs ->
  rs = outcomes.
Proof.
  intros Hrun Hg.
  assert (Hag : results_agree outcomes st).
  { apply (run_schedule_agree _ _ _ _ Hrun). intros i r Hi.
    unfold init_state in Hi. simpl in Hi.
    apply lookup_replicate in Hi as [? _]. discriminate. }
  destruct (run_schedule_gate _ _ _ _ Hrun) as (Hlen & _).
  unfold init_state in Hlen. simpl in Hlen. rewrite length_replicate in Hlen.
  apply gather_results_inv in Hg. rewrite Hg, length_fmap in Hlen.
  apply list_eq. intros i.
  destruct (rs !! i) as [r|] eqn:Hr.
  - symmetry. apply Hag. rewrite Hg, list_lookup_fmap, Hr. reflexivity.
  - symmetry. apply lookup_ge_None. apply lookup_ge_None in Hr. lia.
Qed.

Lemma pending_task (l : list Phase) :
  mapM result_of l = None ->
  exists i ph, l !! i = Some ph /\ result_of ph = None.
Proof.
  induction l as [|x l IH]; simpl; [discriminate|].
  destruct (result_of x) as [r|] eqn:Hx; simpl.
  - destruct (mapM result_of l) as [k|]; simpl; [discriminate|].
    intros _. destruct (IH eq_refl) as (i & ph & Hi & Hph).
    exists (S i), ph. auto.
  - intros _. exists 0%nat, x. auto.
Qed.

Lemma gate_holder (l : list Phase) :
  (0 < length (List.filter holds_gate l))%nat ->
  exists i ph, l !! i = Some ph /\ holds_gate ph = true.
Proof.
  induction l as [|x l IH]; simpl; [lia|].
  destruct (holds_gate x) eqn:Hx.
  - intros _. exists 0%nat, x. auto.
  - intros Hl. destruct (IH Hl) as (i & ph & Hi & Hph).
    exists (S i), ph. auto.
Qed.

(** A gate that admits at least one task never blocks a run for good: as
    long as [gather] has not completed, some step is enabled. *)
Lemma gate_progress (outcomes : list (Outcome bool)) (c : Z) (st : OState) :
  1 <= c ->
  reachable outcomes c st ->
  gather_results st = None ->
  exists a st', apply_action outcomes a st = Some st'.
Proof.
  intros Hc [sched Hrun] Hg.
  destruct (run_schedule_gate _ _ _ _ Hrun) as (Hlen & Hs & _).
  rewrite active_count_init in Hs. simpl in Hlen, Hs.
  rewrite length_replicate in Hlen.
  assert (Hleave : forall j ph, phases st !! j = Some ph ->
                                holds_gate ph = true ->
                                exists a st', apply_action outcomes a st = Some st').
  { intros j ph Hj Hh.
    assert (Hlt : (j < length outcomes)%nat).
    { rewrite <- Hlen. eapply lookup_lt_Some, Hj. }
    destruct (lookup_lt_is_Some_2 _ _ Hlt) as [r Hr].
    exists (Leave j). simpl. rewrite Hj, Hr, Hh. eauto. }
  destruct (pending_task _ Hg) as (i & ph & Hi & Hph).
  destruct (holds_gate ph) eqn:Hh; [eauto|].
  destruct ph; try discriminate.
  destruct (0 <? sem st) eqn:Hpos.
  - exists (Acquire i). simpl. rewrite Hi, Hpos. eauto.
  - apply Z.ltb_ge in Hpos.
    destruct (gate_holder (phases st)) as (j & ph & Hj & Hh');
      [unfold active_count in Hs; lia|eauto].
Qed.

(** A gate of zero admits nobody: no step is enabled at the start. *)
Lemma gate_zero_blocks (outcomes : list (Outcome bool)) (a : Action) :
  apply_action outcomes a (init_state 0 (length outcomes)) = None.
Proof.
  destruct a as [i|i|i|i|i]; simpl;
    destruct (replicate (length outcomes) Waiting !! i) as [ph|] eqn:Hi;
    try reflexivity;
    apply lookup_replicate in Hi as [-> _]; try reflexivity.
  now destruct (outcomes !! i).
Qed.

Lemma task_outcomes_length
    (run_task : nat -> Account -> option Proxy -> Outcome bool)
    (accounts : list Account) (proxies : list Proxy) :
  length (task_outcomes run_task accounts proxies) = length accounts.
Proof. unfold task_outcomes. now rewrite length_imap, create_tasks_length. Qed.

Lemma task_outcomes_lookup
    (run_task : nat -> Account -> option Proxy -> Outcome bool)
    (accounts : list Account) (proxies : list Proxy) (i : nat) :
  task_outcomes run_task accounts proxies !! i
  = (fun a => run_task i a (assign_proxy proxies i)) <$> accounts !! i.
Proof.
  unfold task_outcomes.
  rewrite list_lookup_imap, create_tasks_lookup.
  now destruct (accounts !! i).
Qed.

(** [main] on a non-empty account list and a gate that admits a task. *)
Lemma main_with_completes
    (run_task : nat -> Account -> option Proxy -> Outcome bool)
    (config : BotConfig) (accounts : list Account) (proxies : list Proxy) :
  accounts <> [] ->
  1 <= max_concurrent_accounts config ->
  main_with run_task config accounts proxies
  = Completed {| results := task_outcomes run_task accounts proxies;
                 processed := length accounts;
                 succeeded :=
                   count_success (task_outcomes run_task accounts proxies) |}.
Proof.
  intros Hne Hc. unfold main_with.
  destruct accounts as [|a0 rest] eqn:Ea; [congruence|]. rewrite <- Ea.
  assert (Hneg : (max_concurrent_accounts config <? 0) = false)
    by (apply Z.ltb_ge; lia).
  rewrite Hneg. fold (task_outcomes run_task accounts proxies).
  rewrite <- (length_imap (fun i t => run_task i (fst t) (snd t))
                (create_tasks accounts proxies)).
  fold (task_outcomes run_task accounts proxies).
  rewrite (sequential_completes _ _ Hc), gather_results_done.
  reflexivity.
Qed.

(** C4, amended.  For a non-empty account list (and a gate limit of at least
    one, as the configuration requires), whatever each task ends with, the
    orchestrator completes with one result per account, the number of
    accounts as processed count and the number of tasks that returned [True]
    as success count; the result of an account is the outcome of its own
    task, under every interleaving and whatever the other tasks end with. *)
Theorem orchestrator_summary
    (run_task : nat -> Account -> option Proxy -> Outcome bool)
    (config : BotConfig) (accounts : list Account) (proxies : list Proxy) :
  accounts <> [] ->
  1 <= max_concurrent_accounts config ->
  orchestrator_reports run_task config accounts proxies /\
  forall sched st rs i a,
    run_schedule (task_outcomes run_task accounts proxies) sched
      (init_state (max_concurrent_accounts config) (length accounts))
    = Some st ->
    gather_results st = Some rs ->
    accounts !! i = Some a ->
    rs !! i = Some (run_task i a (assign_proxy proxies i)).
Proof.
  intros Hne Hc. split.
  - eexists. split; [now apply main_with_completes|]. simpl.
    repeat split; auto using task_outcomes_length.
    intros i a Ha. now rewrite task_outcomes_lookup, Ha.
  - intros sched st rs i a Hrun Hg Ha.
    rewrite <- (task_outcomes_length run_task accounts proxies) in Hrun.
    rewrite (gather_any_schedule _ _ _ _ _ Hrun Hg).
    now rewrite task_outcomes_lookup, Ha.
Qed.

Lemma orchestrator_summary_witness :
  orchestrator_reports
    (fun i _ _ => if Nat.eqb i 1 then Exc IndexError else Ret true)
    (sample_config 3 1) [alice; bob; alice] [proxy_a].
Proof.
  apply (orchestrator_summary
           (fun i _ _ => if Nat.eqb i 1 then Exc IndexError else Ret true)
           (sample_config 3 1) [alice; bob; alice] [proxy_a]);
    [discriminate | simpl; lia].
Defined.

(** C4 as stated fails on the empty account list: [main] logs an error and
    returns before any summary is made. *)
Lemma orchestrator_silent_without_accounts :
  main_with (fun _ _ _ => Ret true) (sample_config 3 1) [] [proxy_a]
  = NoAccounts /\
  ~ orchestrator_reports (fun _ _ _ => Ret true) (sample_config 3 1) []
      [proxy_a].
Proof.
  split; [reflexivity|].
  intros (s & Hs & _). discriminate Hs.
Qed.

(** With a gate of zero the tasks are created and none ever runs. *)
Lemma main_blocked_by_closed_gate :
  main_with (fun _ _ _ => Ret true) closed_gate [alice; bob] [proxy_a]
  = NeverCompletes.
Proof. reflexivity. Qed.

(** ** The monad *)

Section MonadFacts.

Context {env : Collaborators}.

Lemma terminates_ret {A} (a : A) : terminates (ret a).
Proof. intros s; discriminate. Qed.

Lemma terminates_raise {A} (e : exn) : terminates (@raise _ A e).
Proof. intros s; discriminate. Qed.

Lemma terminates_emit (ev : Event) : terminates (emit ev).
Proof. intros s; discriminate. Qed.

Lemma terminates_call {A} (c : Call A) : terminates (call c).
Proof.
  intros s. unfold call. destruct (respond A (world s) c) as [[a|e] w'];
    discriminate.
Qed.

Lemma terminates_rand : terminates rand.
Proof. intros s. unfold rand. destruct (draw (world s)). discriminate. Qed.

Lemma terminates_bind {A B} (m : M A) (k : A -> M B) :
  terminates m -> (forall a, terminates (k a)) -> terminates (bind m k).
Proof.
  intros Hm Hk s. unfold bind. specialize (Hm s).
  destruct (m s) as [[a|e|] s']; simpl in *; [apply Hk|discriminate|congruence].
Qed.

Lemma terminates_try {A} (m : M A) (h : exn -> M A) :
  terminates m -> (forall e, terminates (h e)) -> terminates (try_except m h).
Proof.
  intros Hm Hh s. unfold try_except. specialize (Hm s).
  destruct (m s) as [[a|e|] s']; simpl in *; [discriminate|apply Hh|congruence].
Qed.

Lemma returns_terminates {A} (m : M A) : returns m -> terminates m.
Proof. intros Hm s. destruct (Hm s) as [a ->]. discriminate. Qed.

Lemma returns_ret {A} (a : A) : returns (ret a).
Proof. intros s. now exists a. Qed.

Lemma returns_emit (ev : Event) : returns (emit ev).
Proof. intros s. now exists tt. Qed.

Lemma returns_rand : returns rand.
Proof. intros s. unfold rand. destruct (draw (world s)) as [n w']. now exists n. Qed.

Lemma returns_bind {A B} (m : M A) (k : A -> M B) :
  returns m -> (forall a, returns (k a)) -> returns (bind m k).
Proof.
  intros Hm Hk s. unfold bind. destruct (Hm s) as [a Ha].
  destruct (m s) as [o s']. simpl in Ha. subst o. apply Hk.
Qed.

(** A [try] whose handler returns cannot raise. *)
Lemma returns_try {A} (m : M A) (h : exn -> M A) :
  terminates m -> (forall e, returns (h e)) -> returns (try_except m h).
Proof.
  intros Hm Hh s. unfold try_except. specialize (Hm s).
  destruct (m s) as [[a|e|] s']; simpl in *;
    [now exists a | apply Hh | congruence].
Qed.

Lemma emits_ret {A} (P : Event -> bool) (a : A) : emits P (ret a).
Proof. intros s. exists []. now rewrite app_nil_r. Qed.

Lemma emits_raise {A} (P : Event -> bool) (e : exn) : emits P (@raise _ A e).
Proof. intros s. exists []. now rewrite app_nil_r. Qed.

Lemma emits_rand (P : Event -> bool) : emits P rand.
Proof.
  intros s. unfold rand. destruct (draw (world s)). exists [].
  now rewrite app_nil_r.
Qed.

Lemma emits_emit (P : Event -> bool) (ev : Event) :
  P ev = true -> emits P (emit ev).
Proof. intros Hp s. exists [ev]. simpl. now rewrite Hp. Qed.

Lemma emits_call {A} (P : Event -> bool) (c : Call A) :
  (forall r, P (ECall c r) = true) -> emits P (call c).
Proof.
  intros Hp s. unfold call.
  destruct (respond A (world s) c) as [[a|e] w']; simpl;
    eexists [_]; simpl; rewrite Hp; auto.
Qed.

Lemma emits_bind {A B} (P : Event -> bool) (m : M A) (k : A -> M B) :
  emits P m -> (forall a, emits P (k a)) -> emits P (bind m k).
Proof.
  intros Hm Hk s. unfold bind. destruct (Hm s) as (t1 & Ht1 & Hp1).
  destruct (m s) as [[a|e|] s']; simpl in *; eauto.
  destruct (Hk a s') as (t2 & Ht2 & Hp2).
  exists (t1 ++ t2). rewrite Ht2, Ht1, app_assoc, forallb_app, Hp1, Hp2. auto.
Qed.

Lemma emits_try {A} (P : Event -> bool) (m : M A) (h : exn -> M A) :
  emits P m -> (forall e, emits P (h e)) -> emits P (try_except m h).
Proof.
  intros Hm Hh s. unfold try_except. destruct (Hm s) as (t1 & Ht1 & Hp1).
  destruct (m s) as [[a|e|] s']; simpl in *; eauto.
  destruct (Hh e s') as (t2 & Ht2 & Hp2).
  exists (t1 ++ t2). rewrite Ht2, Ht1, app_assoc, forallb_app, Hp1, Hp2. auto.
Qed.

(** Events outside a class are not counted among events of the class. *)
Lemma count_outside (P Q : Event -> bool) (t : list Event) :
  (forall ev, P ev = true -> Q ev = false) ->
  forallb P t = true -> count Q t = 0%nat.
Proof.
  intros Hpq. unfold count. induction t as [|ev t IH]; simpl; [auto|].
  intros [Hev Ht]%andb_prop. rewrite (Hpq _ Hev). auto.
Qed.

Lemma count_app (P : Event -> bool) (t1 t2 : list Event) :
  count P (t1 ++ t2) = (count P t1 + count P t2)%nat.
Proof. unfold count. now rewrite List.filter_app, length_app. Qed.

End MonadFacts.

(** Composition rules, applied along the structure of a computation. *)
Ltac compose_terminates :=
  repeat first
    [ apply terminates_ret | apply terminates_raise | apply terminates_emit
    | apply terminates_call | apply terminates_rand
    | apply terminates_bind; [|intros ?]
    | apply terminates_try; [|intros ?]
    | match goal with
      | |- terminates (match ?x with _ => _ end) => destruct x
      | |- terminates (if ?b then _ else _) => destruct b
      end ].

Ltac compose_returns :=
  repeat first
    [ apply returns_ret | apply returns_emit | apply returns_rand
    | apply returns_bind; [|intros ?]
    | apply returns_try; [compose_terminates|intros ?]
    | match goal with
      | |- returns (match ?x with _ => _ end) => destruct x
      | |- returns (if ?b then _ else _) => destruct b
      end ].

Ltac compose_emits :=
  repeat first
    [ apply emits_ret | apply emits_raise | apply emits_rand
    | apply emits_emit; reflexivity
    | apply emits_call; intros ?; reflexivity
    | apply emits_bind; [|intros ?]
    | apply emits_try; [|intros ?]
    | match goal with
      | |- emits _ (match ?x with _ => _ end) => destruct x
      | |- emits _ (if ?b then _ else _) => destruct b
      end ].

(** ** The account session *)

Section SessionFacts.

Context {env : Collaborators}.
Variable config : BotConfig.
Variable comments : list pystr.

Lemma setup_browser_terminates (proxy : option Proxy) :
  terminates (setup_browser config proxy).
Proof. unfold setup_browser. compose_terminates. Qed.

Lemma login_attempt_terminates (account : Account) (proxy : option Proxy)
    (current_attempt : Z) :
  terminates (login_attempt config account proxy current_attempt).
Proof.
  unfold login_attempt, setup_browser, login_except, login_steps.
  compose_terminates.
Qed.

(** The loop bound of [login] is never reached. *)
Lemma login_loop_terminates (account : Account) (proxy : option Proxy)
    (fuel : nat) :
  forall current_attempt,
    (Z.to_nat (max_login_attempts config - current_attempt + 1) < fuel)%nat ->
    terminates (login_loop config fuel account proxy current_attempt).
Proof.
  induction fuel as [|fuel IH]; intros cur Hf; [lia|].
  simpl. destruct (cur <=? max_login_attempts config) eqn:Hle.
  - apply Z.leb_le in Hle. apply terminates_bind.
    + apply login_attempt_terminates.
    + intros [sd|]; [apply terminates_ret|]. apply IH. lia.
  - compose_terminates.
Qed.

Lemma login_terminates (account : Account) (proxy : option Proxy) :
  terminates (login config account proxy).
Proof. apply login_loop_terminates. lia. Qed.

Lemma run_cycles_terminates (sd : Session) (cycles : list Z) :
  terminates (run_cycles config comments sd cycles).
Proof.
  induction cycles as [|c cycles IH]; simpl; [apply terminates_ret|].
  apply terminates_bind; [|intros ?; exact IH].
  unfold cycle_body, cycle_until_comments, cycle_after_comments,
    comment_and_reply, take_screenshot, _open_first_video, _open_comments,
    _post_comment, _reply_to_comment, _click_next_button, sleep_random,
    random_choice, randint.
  cbv zeta. compose_terminates.
Qed.

(** [process_videos] catches whatever its cycles raise. *)
Lemma process_videos_returns (sd : Session) :
  returns (process_videos config comments sd).
Proof.
  unfold process_videos. apply returns_try; [|intros e; compose_returns].
  apply terminates_bind; [compose_terminates|intros _].
  apply terminates_bind; [apply run_cycles_terminates|intros _].
  compose_terminates.
Qed.

(** [close_session] never lets an error out. *)
Lemma close_session_returns (session_data : option Session) :
  returns (close_session session_data).
Proof. unfold close_session. compose_returns. Qed.

Lemma process_account_returns (account : Account) (proxy : option Proxy) :
  returns (process_account config comments account proxy).
Proof.
  unfold process_account. apply returns_try; [|intros e; compose_returns].
  apply terminates_bind; [apply login_terminates|intros [sd|]].
  - apply terminates_bind;
      [apply returns_terminates, process_videos_returns|intros _].
    apply terminates_bind;
      [apply returns_terminates, close_session_returns|intros _].
    apply terminates_ret.
  - compose_terminates.
Qed.

(** [login] does nothing but logging in. *)
Lemma login_attempt_emits (account : Account) (proxy : option Proxy)
    (current_attempt : Z) :
  emits is_login_event (login_attempt config account proxy current_attempt).
Proof.
  unfold login_attempt, setup_browser, login_except, login_steps.
  compose_emits.
Qed.

Lemma login_loop_emits (account : Account) (proxy : option Proxy)
    (fuel : nat) :
  forall current_attempt,
    emits is_login_event
      (login_loop config fuel account proxy current_attempt).
Proof.
  induction fuel as [|fuel IH]; intros cur; simpl.
  - intros s. exists []. now rewrite app_nil_r.
  - destruct (cur <=? max_login_attempts config).
    + apply emits_bind; [apply login_attempt_emits|].
      intros [sd|]; [apply emits_ret|apply IH].
    + compose_emits.
Qed.

Lemma login_emits (account : Account) (proxy : option Proxy) :
  emits is_login_event (login config account proxy).
Proof. apply login_loop_emits. Qed.

(** C6.  When [login] has used up its attempts and returns [None],
    [process_account] returns [False] after one more log line, and
    [process_videos] is not invoked: no event of the engagement phase is in
    what the account's processing adds to the trace. *)
Theorem failed_login_skips_cycles (account : Account) (proxy : option Proxy)
    (s s1 : St) :
  login config account proxy s = (Ret None, s1) ->
  process_account config comments account proxy s
  = (Ret false,
     {| world := world s1;
        trace := trace s1 ++ [ELog Error (AccountLoginFailed (email account))] |})
  /\ exists t,
       trace s1 ++ [ELog Error (AccountLoginFailed (email account))]
       = trace s ++ t /\
       count is_videos_start t = 0%nat /\
       count is_engagement_event t = 0%nat.
Proof.
  intros Hl. split.
  - unfold process_account, try_except, bind. rewrite Hl. reflexivity.
  - destruct (login_emits account proxy s) as (t & Ht & Hp).
    rewrite Hl in Ht. simpl in Ht.
    exists (t ++ [ELog Error (AccountLoginFailed (email account))]).
    rewrite Ht, <- app_assoc. split; [reflexivity|].
    rewrite !count_app.
    rewrite (count_outside is_login_event is_videos_start t),
      (count_outside is_login_event is_engagement_event t); auto.
    + intros [A c r|lvl m|d]; [destruct c|destruct m|destruct d];
        simpl; congruence.
    + intros [A c r|lvl m|d]; [destruct c|destruct m|destruct d];
        simpl; congruence.
Qed.

(** After a successful login, [process_account] runs [process_videos],
    then [close_session] on the session, and returns [True], whatever
    [process_videos] returned. *)
Lemma process_account_after_login (account : Account) (proxy : option Proxy)
    (s s1 : St) (sd : Session) :
  login config account proxy s = (Ret (Some sd), s1) ->
  exists b s2,
    process_videos config comments sd s1 = (Ret b, s2) /\
    process_account config comments account proxy s
    = (Ret true, snd (close_session (Some sd) s2)).
Proof.
  intros Hl.
  destruct (process_videos_returns sd s1) as [b Hb].
  destruct (process_videos config comments sd s1) as [o s2] eqn:Hv.
  simpl in Hb. subst o. exists b, s2. split; [reflexivity|].
  destruct (close_session_returns (Some sd) s2) as [[] Hc].
  unfold process_account, try_except, bind. rewrite Hl, Hv.
  destruct (close_session (Some sd) s2) as [o s3]. simpl in Hc. subst o.
  reflexivity.
Qed.

End SessionFacts.

Lemma failed_login_skips_cycles_witness :
  fst (process_account (env:=scripted login_rejected) (sample_config 2 1) []
         alice None (start login_rejected)) = Ret false.
Proof.
  assert (Hl : login (env:=scripted login_rejected) (sample_config 2 1) alice
                 None (start login_rejected)
               = (Ret None,
                  snd (login (env:=scripted login_rejected) (sample_config 2 1)
                         alice None (start login_rejected))))
    by (vm_compute; reflexivity).
  destruct (failed_login_skips_cycles (env:=scripted login_rejected)
              (sample_config 2 1) [] alice None _ _ Hl) as [Hp _].
  rewrite Hp. reflexivity.
Defined.

Lemma count_success_lookup (rs : list (Outcome bool)) (i : nat) :
  rs !! i = Some (Ret true) -> (1 <= count_success rs)%nat.
Proof.
  unfold count_success. revert i.
  induction rs as [|r rs IH]; intros [|i] Hi; simpl in *; try discriminate.
  - injection Hi as ->. simpl. lia.
  - specialize (IH i Hi). destruct (is_True r); simpl; lia.
Qed.

(** C9.  An account whose login succeeds makes [process_account] return
    [True] whatever [process_videos] returned, and the orchestrator counts
    it among the successes. *)
Theorem login_success_counts_as_success {env : Collaborators}
    (config : BotConfig) (comments : list pystr) (worlds : nat -> W)
    (accounts : list Account) (proxies : list Proxy) (i : nat) (a : Account)
    (sd : Session) (s1 : St) :
  accounts !! i = Some a ->
  1 <= max_concurrent_accounts config ->
  login config a (assign_proxy proxies i) (initial (worlds i))
  = (Ret (Some sd), s1) ->
  (forall o s2,
     process_videos config comments sd s1 = (o, s2) ->
     process_account config comments a (assign_proxy proxies i)
       (initial (worlds i))
     = (Ret true, snd (close_session (Some sd) s2))) /\
  exists summary,
    main config comments worlds accounts proxies = Completed summary /\
    results summary !! i = Some (Ret true) /\
    (1 <= succeeded summary)%nat.
Proof.
  intros Ha Hc Hl.
  destruct (process_account_after_login config comments a _ _ _ _ Hl)
    as (b & s2 & Hv & Hp).
  split.
  - intros o s2' Hv'. rewrite Hv in Hv'. injection Hv' as <- <-. exact Hp.
  - assert (Hne : accounts <> []) by (intros ->; discriminate).
    eexists. split; [apply (main_with_completes _ _ _ _ Hne Hc)|]. simpl.
    assert (Hi : task_outcomes (session_task config comments worlds)
                   accounts proxies !! i = Some (Ret true)).
    { rewrite task_outcomes_lookup, Ha. simpl. f_equal.
      unfold session_task, process_with_semaphore_body, bind.
      rewrite Hp. reflexivity. }
    split; [exact Hi|]. eapply count_success_lookup, Hi.
Qed.

Lemma login_success_counts_as_success_witness :
  fst (process_videos (env:=scripted feed_unreachable) (sample_config 3 2)
         [lit "nice"] sample_session
         (snd (login (env:=scripted feed_unreachable) (sample_config 3 2)
                 alice None (start feed_unreachable))))
  = Ret false /\
  main (env:=scripted feed_unreachable) (sample_config 3 2) [lit "nice"]
    (fun _ => tt) [alice] []
  = Completed {| results := [Ret true]; processed := 1; succeeded := 1 |}.
Proof.
  split; [vm_compute; reflexivity|].
  assert (Hl : login (env:=scripted feed_unreachable) (sample_config 3 2)
                 alice (assign_proxy [] 0)
                 (initial (env:=scripted feed_unreachable) tt)
               = (Ret (Some sample_session),
                  snd (login (env:=scripted feed_unreachable)
                         (sample_config 3 2) alice None
                         (start feed_unreachable))))
    by (vm_compute; reflexivity).
  destruct (login_success_counts_as_success (env:=scripted feed_unreachable)
              (sample_config 3 2) [lit "nice"] (fun _ => tt) [alice] [] 0
              alice sample_session _ eq_refl ltac:(simpl; lia) Hl)
    as (_ & summary & Hm & _).
  rewrite Hm. vm_compute in Hm. injection Hm as <-. reflexivity.
Defined.

(** The tasks of this program end with a boolean: [process_account]
    catches what its session raises. *)
Lemma session_task_returns {env : Collaborators} (config : BotConfig)
    (comments : list pystr) (worlds : nat -> W) (i : nat) (a : Account)
    (proxy : option Proxy) :
  exists b, session_task config comments worlds i a proxy = Ret b.
Proof.
  unfold session_task, process_with_semaphore_body, bind.
  destruct (process_account_returns config comments a proxy
              (initial (worlds i))) as [b Hb].
  destruct (process_account config comments a proxy (initial (worlds i)))
    as [o s']. simpl in Hb. subst o. now exists b.
Qed.

(** Two accounts, one proxy, one session at a time, a collaborator under
    which every step succeeds: both accounts get the proxy and succeed. *)
Example two_accounts_one_proxy :
  create_tasks [alice; bob] [proxy_a]
  = [(alice, Some proxy_a); (bob, Some proxy_a)] /\
  main (env:=scripted all_good) one_at_a_time [lit "nice"] (fun _ => tt)
    [alice; bob] [proxy_a]
  = Completed {| results := [Ret true; Ret true];
                 processed := 2; succeeded := 2 |}.
Proof. split; vm_compute; reflexivity. Qed.

(** ** Releasing the session *)

Section Release.

Context {env : Collaborators}.
Variable config : BotConfig.
Variable comments : list pystr.

(** When closing the browser succeeds, [close_session] goes on to stop the
    driver. *)
Lemma close_session_stops_driver (sd : Session) (b p : Handle) (s : St)
    (w' : W) :
  s_browser sd = Some b ->
  s_playwright sd = Some p ->
  respond unit (world s) (BrowserClose b) = (ROk tt, w') ->
  exists r s',
    close_session (Some sd) s = (Ret tt, s') /\
    (trace s' = trace s ++ [ECall (BrowserClose b) (ROk tt);
                            ECall (PlaywrightStop p) r;
                            ELog Info (SessionClosed (email (s_account sd)))]
     \/ exists e, r = RRaise e /\
        trace s' = trace s ++ [ECall (BrowserClose b) (ROk tt);
                               ECall (PlaywrightStop p) r;
                               ELog Error (CloseError e)]).
Proof.
  intros Hb Hp Hr. unfold close_session. rewrite Hb, Hp.
  unfold_monad. rewrite Hr. cbn [world trace].
  destruct (respond unit w' (PlaywrightStop p)) as [[[]|e] w''] eqn:E;
    cbn [world trace]; rewrite <- !app_assoc; simpl; eauto 8.
Qed.

Lemma close_session_on_close_error (sd : Session) (b p : Handle)
    (e : exn) (s : St) (w' : W) :
  s_browser sd = Some b ->
  s_playwright sd = Some p ->
  respond unit (world s) (BrowserClose b) = (RRaise e, w') ->
  close_session (Some sd) s
  = (Ret tt,
     {| world := w';
        trace := trace s ++ [ECall (BrowserClose b) (RRaise e);
                             ELog Error (CloseError e)] |}).
Proof.
  intros Hb Hp Hr.
  unfold close_session. rewrite Hb, Hp.
  unfold_monad. rewrite Hr. cbn [world trace].
  now rewrite <- app_assoc.
Qed.

(** C7, where the code departs from it.  When closing the browser raises,
    [close_session] logs the error and returns: the driver is not stopped. *)
Theorem close_error_skips_driver_stop (sd : Session) (b p : Handle)
    (e : exn) (s : St) (w' : W) :
  s_browser sd = Some b ->
  s_playwright sd = Some p ->
  respond unit (world s) (BrowserClose b) = (RRaise e, w') ->
  close_session (Some sd) s
  = (Ret tt,
     {| world := w';
        trace := trace s ++ [ECall (BrowserClose b) (RRaise e);
                             ELog Error (CloseError e)] |}) /\
  driver_stops [ECall (BrowserClose b) (RRaise e); ELog Error (CloseError e)]
  = 0%nat.
Proof.
  intros Hb Hp Hr. split; [|reflexivity].
  now apply (close_session_on_close_error sd b p).
Qed.

Lemma run_cycles_emits (sd : Session) (cycles : list Z) :
  emits is_videos_event (run_cycles config comments sd cycles).
Proof.
  induction cycles as [|c cycles IH]; simpl; [apply emits_ret|].
  apply emits_bind; [|intros ?; exact IH].
  unfold cycle_body, cycle_until_comments, cycle_after_comments,
    comment_and_reply, take_screenshot, _open_first_video, _open_comments,
    _post_comment, _reply_to_comment, _click_next_button, sleep_random,
    random_choice, randint, sleep, log.
  cbv zeta. compose_emits.
Qed.

(** [process_videos] neither closes the browser nor stops the driver. *)
Lemma process_videos_emits (sd : Session) :
  emits is_videos_event (process_videos config comments sd).
Proof.
  unfold process_videos, log. apply emits_try; [|intros e; compose_emits].
  apply emits_bind; [compose_emits|intros _].
  apply emits_bind; [apply run_cycles_emits|intros _].
  compose_emits.
Qed.

(** C2, where the code departs from it.  After a successful login
    [close_session] is reached on every path, but when closing the browser
    raises, nothing after the login stops the driver. *)
Theorem failed_close_leaves_driver_running (account : Account)
    (proxy : option Proxy) (s s1 : St) (sd : Session) (b p : Handle) :
  login config account proxy s = (Ret (Some sd), s1) ->
  s_browser sd = Some b ->
  s_playwright sd = Some p ->
  (forall w, exists e, fst (respond unit w (BrowserClose b)) = RRaise e) ->
  exists s3 t,
    process_account config comments account proxy s = (Ret true, s3) /\
    trace s3 = trace s1 ++ t /\
    browser_closes t = 1%nat /\
    driver_stops t = 0%nat.
Proof.
  intros Hl Hb Hp Hraise.
  destruct (process_account_after_login config comments _ _ _ _ _ Hl)
    as (ok & s2 & Hv & Hpa).
  destruct (process_videos_emits sd s1) as (t & Ht & Hcls).
  rewrite Hv in Ht. simpl in Ht.
  destruct (Hraise (world s2)) as [e He].
  destruct (respond unit (world s2) (BrowserClose b)) as [r w'] eqn:Hr.
  simpl in He. subst r.
  pose proof (close_session_on_close_error sd b p e s2 w' Hb Hp Hr) as Hc.
  rewrite Hc in Hpa. simpl in Hpa.
  eexists _, (t ++ [ECall (BrowserClose b) (RRaise e); ELog Error (CloseError e)]).
  split; [exact Hpa|]. simpl. rewrite Ht, <- app_assoc.
  split; [reflexivity|].
  unfold browser_closes, driver_stops. rewrite !count_app.
  rewrite (count_outside is_videos_event is_browser_close t),
    (count_outside is_videos_event is_driver_stop t); auto.
  - intros [A c r|lvl m|d]; [destruct c|destruct m|destruct d];
      unfold is_videos_event; simpl; congruence.
  - intros [A c r|lvl m|d]; [destruct c|destruct m|destruct d];
      unfold is_videos_event; simpl; congruence.
Qed.

End Release.

Lemma close_error_skips_driver_stop_witness :
  close_session (env:=scripted close_raises) (Some sample_session)
    (start close_raises)
  = (Ret tt,
     @Build_St (scripted close_raises) tt
       [ECall (BrowserClose 2%nat) (RRaise (DriverError 7));
        ELog Error (CloseError (DriverError 7))]).
Proof.
  apply (close_error_skips_driver_stop (env:=scripted close_raises)
            sample_session 2%nat 1%nat (DriverError 7) (start close_raises)
           (tt : @W (scripted close_raises)) eq_refl eq_refl eq_refl).
Defined.

Lemma failed_close_leaves_driver_running_witness :
  exists s3 t,
    process_account (env:=scripted close_raises) (sample_config 3 1)
      [lit "nice"] alice None (start close_raises) = (Ret true, s3) /\
    trace s3
    = trace (snd (login (env:=scripted close_raises) (sample_config 3 1)
                    alice None (start close_raises))) ++ t /\
    browser_closes t = 1%nat /\ driver_stops t = 0%nat.
Proof.
  apply (failed_close_leaves_driver_running (env:=scripted close_raises)
           (sample_config 3 1) [lit "nice"] alice None (start close_raises)
           _ sample_session 2%nat 1%nat).
  - vm_compute. reflexivity.
  - reflexivity.
  - reflexivity.
  - intros w. exists (DriverError 7). reflexivity.
Defined.

(** ** Login retries *)

Section Leak.

Context {env : Collaborators}.
Variable config : BotConfig.
Hypothesis Hstart : driver_starts env.
Hypothesis Hlaunch : launch_refused env.

(** One attempt whose browser launch raises: the driver has been started,
    the handler finds its locals still [None] and releases nothing. *)
Lemma leaking_attempt (account : Account) (proxy : option Proxy) (cur : Z)
    (s : St) :
  exists s' p e,
    login_attempt config account proxy cur s = (Ret None, s') /\
    trace s'
    = trace s ++ [ELog Info (LoginAttempt (email account) cur
                               (max_login_attempts config));
                  ECall PlaywrightStart (ROk p);
                  ECall (ChromiumLaunch p (headless config)) (RRaise e);
                  ELog Error (LoginError (email account) e)].
Proof.
  unfold login_attempt, setup_browser, login_except.
  unfold_monad. cbn [world trace].
  destruct (Hstart (world s)) as [p Hp].
  destruct (respond _ (world s) PlaywrightStart) as [r1 w1] eqn:E1.
  cbn [fst] in Hp. subst r1. cbn [world trace].
  destruct (Hlaunch w1 p (headless config)) as [e He].
  destruct (respond _ w1 (ChromiumLaunch p (headless config)))
    as [r2 w2] eqn:E2.
  cbn [fst] in He. subst r2. cbn [world trace].
  eexists _, p, e. split; [reflexivity|]. cbn [trace].
  now rewrite <- !app_assoc.
Qed.

Lemma leaking_loop (account : Account) (proxy : option Proxy) (fuel : nat) :
  forall cur s,
    (Z.to_nat (max_login_attempts config - cur + 1) < fuel)%nat ->
    exists s' t,
      login_loop config fuel account proxy cur s = (Ret None, s') /\
      trace s' = trace s ++ t /\
      attempts t = Z.to_nat (max_login_attempts config - cur + 1) /\
      drivers_started t = Z.to_nat (max_login_attempts config - cur + 1) /\
      browser_closes t = 0%nat /\
      driver_stops t = 0%nat /\
      forall l,
        length (live_drivers (fold_left track t l))
        = (Z.to_nat (max_login_attempts config - cur + 1)
           + length (live_drivers l))%nat.
Proof.
  induction fuel as [|fuel IH]; intros cur s Hf; [lia|].
  simpl. destruct (cur <=? max_login_attempts config) eqn:Hle.
  - apply Z.leb_le in Hle.
    destruct (leaking_attempt account proxy cur s) as (s1 & p & e & Hrun & Ht1).
    destruct (IH (cur + 1) s1 ltac:(lia))
      as (s2 & t2 & Hrun2 & Ht2 & Ha2 & Hd2 & Hc2 & Hs2 & Hl2).
    eexists s2, (_ ++ t2).
    unfold bind. rewrite Hrun, Hrun2.
    split; [reflexivity|].
    split; [rewrite Ht2, Ht1, <- app_assoc; reflexivity|].
    unfold attempts, drivers_started, browser_closes, driver_stops in *.
    rewrite !count_app, Ha2, Hd2, Hc2, Hs2.
    replace (Z.to_nat (max_login_attempts config - cur + 1))
      with (S (Z.to_nat (max_login_attempts config - (cur + 1) + 1)))
      by lia.
    repeat split; try reflexivity.
    intros l. rewrite fold_left_app, Hl2. cbn [fold_left track live_drivers].
    simpl. lia.
  - apply Z.leb_gt in Hle. unfold_monad.
    eexists _, _. split; [reflexivity|]. cbn [trace].
    split; [reflexivity|].
    replace (Z.to_nat (max_login_attempts config - cur + 1)) with 0%nat by lia.
    repeat split.
Qed.

(** C3, the defect.  When the driver starts and the launch of the browser
    raises in every attempt, [login] makes its [max_login_attempts] attempts
    and returns [None], as the claim says, but it releases nothing: the
    handler tests locals that [setup_browser] never assigned.  Every attempt
    leaves its driver running, so the releases the claim counts are missing
    as soon as one attempt is made. *)
Theorem login_leaks_started_drivers (account : Account)
    (proxy : option Proxy) (s : St) :
  exists t,
    trace (snd (login config account proxy s)) = trace s ++ t /\
    fst (login config account proxy s) = Ret None /\
    attempts t = Z.to_nat (max_login_attempts config) /\
    drivers_started t = Z.to_nat (max_login_attempts config) /\
    browser_closes t = 0%nat /\
    driver_stops t = 0%nat /\
    length (live_drivers (liveness t))
    = Z.to_nat (max_login_attempts config) /\
    (1 <= max_login_attempts config ->
     ~ login_claim (max_login_attempts config)
         (fst (login config account proxy s)) t).
Proof.
  destruct (leaking_loop account proxy
              (S (Z.to_nat (max_login_attempts config))) 1 s ltac:(lia))
    as (s' & t & Hrun & Ht & Ha & Hd & Hc & Hs & Hl).
  unfold login. rewrite Hrun. cbn [fst snd]. exists t.
  replace (max_login_attempts config - 1 + 1)
    with (max_login_attempts config) in * by lia.
  unfold liveness. rewrite Hl. cbn [live0 live_drivers length].
  repeat split; auto; try lia.
  intros Hk (_ & _ & Hclaim & _). rewrite Hc in Hclaim. lia.
Qed.

End Leak.

Lemma login_leaks_started_drivers_witness :
  fst (login (env:=launch_fails) (sample_config 3 1) alice None
         (initial (env:=launch_fails) tt)) = Ret None /\
  liveness (trace (snd (login (env:=launch_fails) (sample_config 3 1) alice
                          None (initial (env:=launch_fails) tt))))
  = {| live_drivers := [1%nat; 1%nat; 1%nat]; live_browsers := [];
       clean := false |} /\
  ~ login_claim 3
      (fst (login (env:=launch_fails) (sample_config 3 1) alice None
              (initial (env:=launch_fails) tt)))
      (trace (snd (login (env:=launch_fails) (sample_config 3 1) alice None
                     (initial (env:=launch_fails) tt)))).
Proof.
  destruct (login_leaks_started_drivers (env:=launch_fails)
              (sample_config 3 1)
              (fun w => ex_intro _ 1%nat eq_refl)
              (fun w p h => ex_intro _ (DriverError 3) eq_refl)
              alice None (initial (env:=launch_fails) tt))
    as (t & Ht & Hr & _ & _ & _ & _ & _ & Hclaim).
  change (trace (initial (env:=launch_fails) tt) ++ t) with t in Ht.
  rewrite Ht. split; [exact Hr|]. split.
  - rewrite <- Ht. vm_compute. reflexivity.
  - apply Hclaim. simpl. lia.
Defined.

(** ** Engagement cycles *)

Section Cycles.

Context {env : Collaborators}.
Variable config : BotConfig.

Lemma run_cycles_cons (comments : list pystr) (sd : Session) (cycle : Z)
    (rest : list Z) (s : St) :
  run_cycles config comments sd (cycle :: rest) s
  = match cycle_until_comments sd cycle s with
    | (Ret opened, s1) =>
        match cycle_after_comments config comments sd cycle opened s1 with
        | (Ret _, s2) => run_cycles config comments sd rest s2
        | (Exc e, s2) => (Exc e, s2)
        | (OutOfFuel, s2) => (OutOfFuel, s2)
        end
    | (Exc e, s1) => (Exc e, s1)
    | (OutOfFuel, s1) => (OutOfFuel, s1)
    end.
Proof.
  simpl. unfold cycle_body, bind.
  destruct (cycle_until_comments sd cycle s) as [[opened|e|] s1];
    reflexivity.
Qed.

(** The rest of a cycle whose comment panel did not open. *)
Lemma after_closed_comments (comments : list pystr) (sd : Session)
    (cycle : Z) (s1 : St) :
  min_next_clicks config <= max_next_clicks config ->
  exists s2 t,
    cycle_after_comments config comments sd cycle false s1 = (Ret tt, s2) /\
    trace s2 = trace s1 ++ ELog Error CommentsNotOpened :: t /\
    count is_comment_step t = 0%nat /\
    count is_reply_step t = 0%nat /\
    count is_advance t = 1%nat.
Proof.
  intros Hle.
  assert (Hlt : (max_next_clicks config <? min_next_clicks config) = false)
    by (apply Z.ltb_ge; lia).
  unfold cycle_after_comments, randint, _click_next_button, sleep_random.
  rewrite Hlt. unfold_monad. cbn [world trace].
  repeat split_respond.
  all: eexists _, _; split; [reflexivity|]; cbn [trace];
    split; [rewrite <- !app_assoc; simpl; reflexivity|];
    repeat split.
Qed.

(** C8, amended.  With a click window whose bounds are in order
    ([min_next_clicks <= max_next_clicks]), in a cycle whose
    [_open_comments] step reports failure, the failure is logged, neither
    the comment step nor the reply step is entered, the feed is advanced
    once, and the loop goes on with the remaining cycles from the state the
    feed advance leaves. *)
Theorem closed_comments_still_advance (comments : list pystr) (sd : Session)
    (cycle : Z) (rest : list Z) (s s1 : St) :
  min_next_clicks config <= max_next_clicks config ->
  cycle_until_comments sd cycle s = (Ret false, s1) ->
  exists s2 t,
    cycle_body config comments sd cycle s = (Ret tt, s2) /\
    trace s2 = trace s1 ++ ELog Error CommentsNotOpened :: t /\
    count is_comment_step t = 0%nat /\
    count is_reply_step t = 0%nat /\
    count is_advance t = 1%nat /\
    run_cycles config comments sd (cycle :: rest) s
    = run_cycles config comments sd rest s2.
Proof.
  intros Hle Hopen.
  destruct (after_closed_comments comments sd cycle s1 Hle)
    as (s2 & t & Hrun & Ht & Hc & Hr & Ha).
  exists s2, t. rewrite run_cycles_cons. unfold cycle_body, bind.
  rewrite Hopen, Hrun. auto 10.
Qed.

End Cycles.

Lemma closed_comments_still_advance_witness :
  exists s2 t,
    cycle_body (env:=scripted comments_stay_closed) (sample_config 3 2)
      [lit "nice"] sample_session 1 (start comments_stay_closed)
    = (Ret tt, s2) /\
    count is_advance t = 1%nat /\
    count is_cycle_start
      (trace (snd (run_cycles (env:=scripted comments_stay_closed)
                     (sample_config 3 2) [lit "nice"] sample_session [1; 2]
                     (start comments_stay_closed)))) = 2%nat.
Proof.
  destruct (closed_comments_still_advance (env:=scripted comments_stay_closed)
              (sample_config 3 2) [lit "nice"] sample_session 1 [2]
              (start comments_stay_closed)
              (snd (cycle_until_comments (env:=scripted comments_stay_closed)
                      sample_session 1
                      (start comments_stay_closed))))
    as (s2 & t & Hrun & _ & _ & _ & Ha & _).
  - simpl. lia.
  - vm_compute. reflexivity.
  - exists s2, t. split; [exact Hrun|]. split; [exact Ha|].
    vm_compute. reflexivity.
Defined.

(** C8 as stated fails when the bounds of the click window are swapped:
    the comment panel does not open in the first cycle, [random.randint]
    then raises, the feed is not advanced, and the handler of
    [process_videos] ends the loop before the second cycle. *)
Lemma swapped_click_window_aborts :
  fst (cycle_until_comments (env:=scripted comments_stay_closed)
         sample_session 1 (start comments_stay_closed)) = Ret false /\
  fst (cycle_body (env:=scripted comments_stay_closed) swapped_clicks
         [lit "nice"] sample_session 1 (start comments_stay_closed))
  = Exc ValueError /\
  fst (process_videos (env:=scripted comments_stay_closed) swapped_clicks
         [lit "nice"] sample_session (start comments_stay_closed))
  = Ret false /\
  count is_advance
    (trace (snd (process_videos (env:=scripted comments_stay_closed)
                   swapped_clicks [lit "nice"] sample_session
                   (start comments_stay_closed)))) = 0%nat /\
  count is_cycle_start
    (trace (snd (process_videos (env:=scripted comments_stay_closed)
                   swapped_clicks [lit "nice"] sample_session
                   (start comments_stay_closed)))) = 1%nat /\
  cycles_per_account swapped_clicks = 2.
Proof. repeat split; vm_compute; reflexivity. Qed.

(** The comments file of the reference collaborator: blank lines are
    dropped and the others are stripped. *)
Example read_comments_strips :
  fst (read_comments (env:=scripted all_good) one_at_a_time (start all_good))
  = Ret [lit "nice"; lit "great video"].
Proof. vm_compute. reflexivity. Qed.

(** ** The comment pool *)




Lemma py_range_cons (lo hi : Z) :
  lo < hi -> py_range lo hi = lo :: py_range (lo + 1) hi.
Proof.
  intros Hlt. unfold py_range.
  replace (Z.to_nat (hi - lo)) with (S (Z.to_nat (hi - (lo + 1)))) by lia.
  simpl. f_equal; [lia|].
  rewrite <- seq_shift, map_map. apply map_ext. intros i. lia.
Qed.

Section Pool.

Context {env : Collaborators}.
Variable config : BotConfig.





End Pool.



(** ** The accounts file and the proxies file *)

Lemma py_in_single (c : N) (s : pystr) : py_in [c] s = true <-> In c s.
Proof.
  induction s as [|h s IH].
  - split; [discriminate|intros []].
  - change (py_in [c] (h :: s))
      with (((c =? h)%N && true) || py_in [c] s).
    rewrite andb_true_r, orb_true_iff, IH, N.eqb_eq. simpl.
    split; intros [H|H]; auto.
Qed.

Lemma lstrip_keeps (c : N) (s : pystr) :
  py_isspace c = false -> In c s -> In c (lstrip s).
Proof.
  intros Hc. induction s as [|h s IH]; simpl; [auto|].
  destruct (py_isspace h) eqn:Hh; [|auto].
  intros [->|Hin]; [congruence|auto].
Qed.

Lemma strip_keeps (c : N) (s : pystr) :
  py_isspace c = false -> In c s -> In c (strip s).
Proof.
  intros Hc Hin. unfold strip.
  apply -> in_rev. apply lstrip_keeps; [exact Hc|].
  apply -> in_rev. now apply lstrip_keeps.
Qed.

Lemma split_once_found (sep : N) (s : pystr) :
  In sep s ->
  exists e p, split_once sep s = [e; p] /\ s = e ++ sep :: p /\ ~ In sep e.
Proof.
  induction s as [|c s IH]; simpl; [intros []|].
  destruct (c =? sep)%N eqn:Hc.
  - apply N.eqb_eq in Hc. subst c. intros _. exists [], s. auto.
  - apply N.eqb_neq in Hc. intros [->|Hin]; [congruence|].
    destruct (IH Hin) as (e & p & -> & -> & Hne).
    exists (c :: e), p. repeat split. intros [->|H]; [congruence|auto].
Qed.

Lemma accounts_loop_parses (lines : list pystr) :
  forall accounts,
  exists new,
    accounts_loop lines accounts = (accounts ++ new, None) /\
    map (fun a => email a ++ colon :: password a) new
    = map strip (List.filter (py_in [colon]) lines) /\
    Forall (fun a => ~ In colon (email a)) new.
Proof.
  induction lines as [|line lines IH]; intros accounts; simpl.
  - exists []. rewrite app_nil_r. auto.
  - destruct (py_in [colon] line) eqn:Hc.
    + assert (Hin : In colon (strip line)).
      { apply strip_keeps; [reflexivity|]. now apply py_in_single. }
      destruct (split_once_found colon _ Hin) as (e & p & -> & Hs & Hne).
      destruct (IH (accounts ++ [{| email := e; password := p |}]))
        as (new & -> & Hmap & Hall).
      exists ({| email := e; password := p |} :: new).
      rewrite <- app_assoc. simpl. rewrite Hmap, <- Hs. auto.
    + apply IH.
Qed.

(** [read_accounts] keeps, in file order, the lines that hold a colon: each
    account is the stripped line cut at its first colon, so the e-mail holds
    no colon and e-mail, colon and password give the stripped line back;
    the other lines are skipped. *)
Theorem read_accounts_round_trip (f : FileRead) :
  map (fun a => email a ++ colon :: password a) (fst (read_accounts f))
  = map strip (List.filter (py_in [colon]) (yielded f)) /\
  Forall (fun a => ~ In colon (email a)) (fst (read_accounts f)).
Proof.
  unfold read_accounts.
  destruct (accounts_loop_parses (yielded f) []) as (new & -> & Hmap & Hall).
  simpl. destruct (failure f); auto.
Qed.

(** Unpacking a line never fails, and a reading that breaks keeps what was
    read: [read_accounts] returns the accounts of the lines read so far,
    and logs the error exactly when the reading itself raised. *)
Theorem read_accounts_failure (lines : list pystr) (e : exn) :
  fst (read_accounts {| yielded := lines; failure := Some e |})
  = fst (read_accounts {| yielded := lines; failure := None |}) /\
  snd (read_accounts {| yielded := lines; failure := Some e |}) = LoadFailed e /\
  snd (read_accounts {| yielded := lines; failure := None |})
  = Loaded (length (List.filter (py_in [colon]) lines)).
Proof.
  unfold read_accounts. simpl.
  destruct (accounts_loop_parses lines []) as (new & -> & Hmap & _).
  simpl. repeat split.
  apply (f_equal (@length pystr)) in Hmap. rewrite !length_map in Hmap.
  now rewrite Hmap.
Qed.

Lemma split_all_parts (sep : N) (s : pystr) :
  length (split_all sep s) = S (separators sep s) /\
  Forall (fun p => ~ In sep p) (split_all sep s).
Proof.
  unfold separators. induction s as [|c s [IHl IHf]]; simpl.
  - split; [reflexivity|]. repeat constructor. intros [].
  - destruct (split_all sep s) as [|p ps]; [discriminate|].
    rewrite (N.eqb_sym sep c).
    destruct (c =? sep)%N eqn:Hc; simpl in *.
    + split; [lia|]. constructor; [intros []|auto].
    + split; [lia|]. inversion IHf as [|? ? Hp Hps]; subst.
      constructor; [|auto].
      apply N.eqb_neq in Hc. intros [->|H]; [congruence|auto].
Qed.

(** A line of the proxies file gives a proxy exactly when, once stripped, it
    holds one colon or at least three: blank lines and lines of one or three
    fields are skipped without a word. *)
Theorem parse_proxy_accepts (proxy_type line : pystr) :
  is_Some (parse_proxy proxy_type line) <->
  separators colon (strip line) = 1%nat \/
  (3 <= separators colon (strip line))%nat.
Proof.
  unfold parse_proxy.
  destruct (split_all_parts colon (strip line)) as [Hlen _].
  destruct (strip line) as [|c s] eqn:Hs.
  - simpl. unfold separators. simpl. split; [intros [? ?]; discriminate|lia].
  - cbn [truthy]. rewrite <- Hs in *.
    destruct (split_all colon (strip line)) as [|p0 [|p1 [|p2 [|p3 ps]]]];
      simpl in Hlen; split; intros H;
      try (destruct H as [? H]; discriminate H); try lia; eauto.
Qed.

(** Every proxy [read_proxies] returns has a server of the form
    [proxy_type://host:port] with no colon in host or port, and either both
    credentials, without colon, or none. *)
Theorem read_proxies_well_formed (proxy_type : pystr) (f : FileRead)
    (p : Proxy) :
  In p (fst (read_proxies proxy_type f)) ->
  exists host port,
    server p = proxy_server proxy_type host port /\
    ~ In colon host /\ ~ In colon port /\
    ((proxy_username p = None /\ proxy_password p = None) \/
     exists u pw,
       proxy_username p = Some u /\ proxy_password p = Some pw /\
       ~ In colon u /\ ~ In colon pw).
Proof.
  intros Hin.
  assert (Hp : In p (omap (parse_proxy proxy_type) (yielded f))).
  { unfold read_proxies in Hin. destruct (failure f); exact Hin. }
  apply list_elem_of_In, list_elem_of_omap in Hp as (line & _ & Hline).
  unfold parse_proxy in Hline.
  destruct (truthy (strip line)); [|discriminate].
  destruct (split_all_parts colon (strip line)) as [_ Hparts].
  destruct (split_all colon (strip line)) as [|p0 [|p1 [|p2 [|p3 ps]]]];
    try discriminate; injection Hline as <-; simpl;
    repeat match goal with
           | H : Forall _ (_ :: _) |- _ => inversion H; subst; clear H
           end;
    exists p0, p1; repeat split; auto.
  right. exists p2, p3. auto.
Qed.

(** ** Login under any collaborator *)

Section LoginFacts.

Context {env : Collaborators}.
Variable config : BotConfig.

(** An attempt logs its start once, whatever happens next. *)
Lemma login_attempt_one_log (account : Account) (proxy : option Proxy)
    (cur : Z) (s : St) :
  exists t,
    trace (snd (login_attempt config account proxy cur s))
    = trace s ++ ELog Info (LoginAttempt (email account) cur
                              (max_login_attempts config)) :: t /\
    attempts t = 0%nat.
Proof.
  unfold login_attempt. unfold bind at 1, log at 1, emit at 1.
  match goal with
  | |- context [bind ?m ?k ?s0] =>
      assert (Hrest : emits not_attempt (bind m k))
  end.
  { unfold setup_browser, login_except, login_steps. compose_emits. }
  match goal with
  | |- context [bind ?m ?k ?s0] => destruct (Hrest s0) as (t & Ht & Hp)
  end.
  exists t. simpl in Ht. rewrite Ht, <- app_assoc. split; [reflexivity|].
  apply (count_outside not_attempt); [|exact Hp].
  intros ev. unfold not_attempt. now destruct (is_attempt ev).
Qed.

Lemma login_loop_attempts (account : Account) (proxy : option Proxy)
    (fuel : nat) :
  forall cur s,
    (Z.to_nat (max_login_attempts config - cur + 1) < fuel)%nat ->
    exists t,
      trace (snd (login_loop config fuel account proxy cur s)) = trace s ++ t /\
      (attempts t <= Z.to_nat (max_login_attempts config - cur + 1))%nat /\
      match fst (login_loop config fuel account proxy cur s) with
      | Ret None =>
          attempts t = Z.to_nat (max_login_attempts config - cur + 1)
      | Ret (Some _) | Exc _ => (1 <= attempts t)%nat
      | OutOfFuel => False
      end.
Proof.
  induction fuel as [|fuel IH]; intros cur s Hf; [lia|].
  simpl. destruct (cur <=? max_login_attempts config) eqn:Hle.
  - apply Z.leb_le in Hle.
    destruct (login_attempt_one_log account proxy cur s) as (t1 & Ht1 & Ha1).
    pose proof (login_attempt_terminates config account proxy cur s) as Hterm.
    unfold bind.
    destruct (login_attempt config account proxy cur s) as [[[sd|]|e|] s1];
      simpl in Ht1, Hterm; try congruence.
    + eexists. split; [exact Ht1|]. unfold attempts in *.
      change (?x :: t1) with ([x] ++ t1). rewrite count_app, Ha1. simpl.
      split; lia.
    + destruct (IH (cur + 1) s1 ltac:(lia)) as (t2 & Ht2 & Hle2 & Hres).
      exists (ELog Info (LoginAttempt (email account) cur
                           (max_login_attempts config)) :: t1 ++ t2).
      split; [rewrite Ht2, Ht1, <- app_assoc; reflexivity|].
      unfold attempts in *.
      change (?x :: t1 ++ t2) with ([x] ++ t1 ++ t2).
      rewrite !count_app, Ha1. simpl.
      replace (Z.to_nat (max_login_attempts config - cur + 1))
        with (S (Z.to_nat (max_login_attempts config - (cur + 1) + 1)))
        by lia.
      split; [lia|].
      destruct (fst (login_loop config fuel account proxy (cur + 1) s1))
        as [[sd|]|e|]; lia.
    + eexists. split; [exact Ht1|]. unfold attempts in *.
      change (?x :: t1) with ([x] ++ t1). rewrite count_app, Ha1. simpl.
      split; lia.
  - apply Z.leb_gt in Hle. unfold_monad. cbn [fst snd trace].
    eexists. split; [reflexivity|].
    replace (Z.to_nat (max_login_attempts config - cur + 1)) with 0%nat by lia.
    split; reflexivity.
Qed.

(** Whatever the collaborator does, [login] makes at most
    [max_login_attempts] attempts; it returns [None] only after exactly that
    many, and it returns a session or raises only after at least one.  With
    a limit of zero or less it makes no attempt and returns [None]. *)
Theorem login_attempts_bounded (account : Account) (proxy : option Proxy)
    (s : St) :
  exists t,
    trace (snd (login config account proxy s)) = trace s ++ t /\
    (attempts t <= Z.to_nat (max_login_attempts config))%nat /\
    match fst (login config account proxy s) with
    | Ret None => attempts t = Z.to_nat (max_login_attempts config)
    | Ret (Some _) | Exc _ => (1 <= attempts t)%nat
    | OutOfFuel => False
    end.
Proof.
  destruct (login_loop_attempts account proxy
              (S (Z.to_nat (max_login_attempts config))) 1 s ltac:(lia))
    as (t & Ht & Hle & Hres).
  replace (max_login_attempts config - 1 + 1)
    with (max_login_attempts config) in * by lia.
  exists t. auto.
Qed.

Ltac explore_attempt :=
  repeat first
    [ split_respond
    | match goal with
      | |- context [if negb (py_in ?a ?b) then _ else _] =>
          destruct (py_in a b); cbn [negb world trace fst snd]
      end ].

(** An attempt that returns a session leaves its driver and its browser
    open and returns them in the session. *)
Lemma login_attempt_success (account : Account) (proxy : option Proxy)
    (cur : Z) (s s' : St) (sd : Session) :
  login_attempt config account proxy cur s = (Ret (Some sd), s') ->
  exists p b t,
    s_playwright sd = Some p /\ s_browser sd = Some b /\
    s_account sd = account /\ s_proxy sd = proxy /\
    trace s' = trace s ++ t /\
    (forall l,
       live_drivers (fold_left track t l) = p :: live_drivers l /\
       live_browsers (fold_left track t l) = b :: live_browsers l) /\
    last t = Some (ELog Success (LoginSucceeded (email account) proxy)).
Proof.
  unfold login_attempt, setup_browser, login_steps, login_except.
  unfold_monad. cbn [world trace].
  explore_attempt.
  all: intros H; try discriminate H.
  injection H as <- <-.
  eexists _, _, _. repeat (split; [reflexivity|]).
  cbn [trace]. split; [rewrite <- !app_assoc; simpl; reflexivity|].
  split; [intros l; simpl; auto|reflexivity].
Qed.

(** An attempt raises only when a release raised: everything else is
    caught by its handler. *)
Lemma login_attempt_raise (account : Account) (proxy : option Proxy)
    (cur : Z) (s s' : St) (e : exn) :
  login_attempt config account proxy cur s = (Exc e, s') ->
  exists t ev,
    trace s' = trace s ++ t /\ last t = Some ev /\ is_failed_release e ev.
Proof.
  unfold login_attempt, setup_browser, login_steps, login_except.
  unfold_monad. cbn [world trace].
  explore_attempt.
  all: intros H; try discriminate H.
  all: apply pair_equal_spec in H as [He Hs]; injection He as <-; subst s'.
  all: eexists _, _; cbn [trace];
    (split; [rewrite <- !app_assoc; simpl; reflexivity|]);
    (split; [reflexivity|]);
    first [ left; eexists; reflexivity | right; eexists; reflexivity ].
Qed.

(** When [login] ends with a session or an exception, its last attempt
    ended so. *)
Lemma login_loop_last_attempt (account : Account) (proxy : option Proxy)
    (fuel : nat) :
  forall cur s o s',
    login_loop config fuel account proxy cur s = (o, s') ->
    match o with
    | Ret (Some _) | Exc _ =>
        exists cur' s0 t0,
          trace s0 = trace s ++ t0 /\
          login_attempt config account proxy cur' s0 = (o, s')
    | _ => True
    end.
Proof.
  induction fuel as [|fuel IH]; intros cur s o s' Hrun; simpl in Hrun.
  - now injection Hrun as <- <-.
  - destruct (cur <=? max_login_attempts config).
    + unfold bind in Hrun.
      destruct (login_attempt_emits config account proxy cur s)
        as (t1 & Ht1 & _).
      destruct (login_attempt config account proxy cur s)
        as [[[sd|]|e|] s1] eqn:Hatt; simpl in Ht1.
      * injection Hrun as <- <-. exists cur, s, []. rewrite app_nil_r. auto.
      * specialize (IH _ _ _ _ Hrun).
        destruct o as [[sd|]|e|]; auto;
          destruct IH as (cur' & s0 & t0 & Ht0 & Hlast);
          exists cur', s0, (t1 ++ t0);
          (split; [now rewrite Ht0, Ht1, <- app_assoc|exact Hlast]).
      * injection Hrun as <- <-. exists cur, s, []. rewrite app_nil_r. auto.
      * now injection Hrun as <- <-.
    + unfold_monad. now injection Hrun as <- <-.
Qed.

Lemma last_app_some {A} (l1 l2 : list A) (x : A) :
  last l2 = Some x -> last (l1 ++ l2) = Some x.
Proof.
  intros Hl. destruct l2 as [|y l2]; [discriminate|].
  rewrite last_app. now rewrite Hl.
Qed.

(** A session returned by [login] is for the account and the proxy of the
    call, and its driver and its browser are those of the last attempt,
    which started them and released neither. *)
Theorem login_session_open (account : Account) (proxy : option Proxy)
    (s s' : St) (sd : Session) :
  login config account proxy s = (Ret (Some sd), s') ->
  exists p b t0 t,
    s_playwright sd = Some p /\ s_browser sd = Some b /\
    s_account sd = account /\ s_proxy sd = proxy /\
    trace s' = trace s ++ t0 ++ t /\
    (forall l,
       live_drivers (fold_left track t l) = p :: live_drivers l /\
       live_browsers (fold_left track t l) = b :: live_browsers l) /\
    last t = Some (ELog Success (LoginSucceeded (email account) proxy)).
Proof.
  intros Hrun. apply login_loop_last_attempt in Hrun.
  destruct Hrun as (cur' & s0 & t0 & Ht0 & Hatt).
  destruct (login_attempt_success _ _ _ _ _ _ Hatt)
    as (p & b & t & Hp & Hb & Ha & Hx & Ht & Hlive & Hlast).
  exists p, b, t0, t. rewrite Ht, Ht0, <- app_assoc. auto 10.
Qed.

(** No exception of the page, the solver or the setup leaves [login]: when
    [login] raises, the last thing it did was a release that raised. *)
Theorem login_raises_only_on_release (account : Account)
    (proxy : option Proxy) (s s' : St) (e : exn) :
  login config account proxy s = (Exc e, s') ->
  exists t ev,
    trace s' = trace s ++ t /\ last t = Some ev /\ is_failed_release e ev.
Proof.
  intros Hrun. apply login_loop_last_attempt in Hrun.
  destruct Hrun as (cur' & s0 & t0 & Ht0 & Hatt).
  destruct (login_attempt_raise _ _ _ _ _ _ Hatt) as (t & ev & Ht & Hlast & Hev).
  exists (t0 ++ t), ev. rewrite Ht, Ht0, <- app_assoc.
  auto using last_app_some.
Qed.

(** When [setup_browser] raises, the attempt releases nothing, whatever the
    setup had started: the locals of the handler are still [None]. *)
Theorem failed_setup_releases_nothing (account : Account)
    (proxy : option Proxy) (cur : Z) (s s1 : St) (e : exn) :
  setup_browser config proxy
    (snd (log Info (LoginAttempt (email account) cur
                      (max_login_attempts config)) s)) = (Exc e, s1) ->
  login_attempt config account proxy cur s
  = (Ret None,
     {| world := world s1;
        trace := trace s1 ++ [ELog Error (LoginError (email account) e)] |}) /\
  exists t,
    trace s1 = trace s ++ t /\
    browser_closes (t ++ [ELog Error (LoginError (email account) e)]) = 0%nat /\
    driver_stops (t ++ [ELog Error (LoginError (email account) e)]) = 0%nat.
Proof.
  intros Hsetup. split.
  - unfold login_attempt, login_except.
    unfold bind at 1, log at 1, emit at 1.
    unfold log, emit in Hsetup. cbn [snd] in Hsetup.
    unfold bind at 1, try_except at 1, bind at 1. rewrite Hsetup.
    reflexivity.
  - assert (Hem : emits not_release
                    (log Info (LoginAttempt (email account) cur
                                 (max_login_attempts config)) ;;
                     setup_browser config proxy)).
    { unfold setup_browser. compose_emits. }
    destruct (Hem s) as (t & Ht & Hp).
    unfold bind at 1 in Ht.
    change (log Info (LoginAttempt (email account) cur
                        (max_login_attempts config)) s)
      with (Ret tt, snd (log Info (LoginAttempt (email account) cur
                                     (max_login_attempts config)) s)) in Ht.
    cbv iota beta in Ht. rewrite Hsetup in Ht. simpl in Ht.
    exists t. split; [exact Ht|].
    unfold browser_closes, driver_stops. rewrite !count_app. simpl.
    rewrite (count_outside not_release is_browser_close t),
      (count_outside not_release is_driver_stop t); auto.
    + intros ev [_ H]%andb_prop. now destruct (is_driver_stop ev).
    + intros ev [H _]%andb_prop. now destruct (is_browser_close ev).
Qed.

End LoginFacts.

(** ** Engagement under any collaborator *)

Section VideosFacts.

Context {env : Collaborators}.
Variable config : BotConfig.
Variable comments : list pystr.

Lemma emits_bind_yields {A B} (P : Event -> bool) (Q : A -> Prop) (m : M A)
    (k : A -> M B) :
  emits P m -> yields Q m -> (forall a, Q a -> emits P (k a)) ->
  emits P (bind m k).
Proof.
  intros Hm Hq Hk s. unfold bind. destruct (Hm s) as (t1 & Ht1 & Hp1).
  specialize (Hq s).
  destruct (m s) as [[a|e|] s']; simpl in *; eauto.
  destruct (Hk a (Hq a eq_refl) s') as (t2 & Ht2 & Hp2).
  exists (t1 ++ t2). rewrite Ht2, Ht1, app_assoc, forallb_app, Hp1, Hp2. auto.
Qed.

(** [random.choice] returns an element of the pool. *)
Lemma yields_random_choice (pool : list pystr) :
  yields (fun text => text ∈ pool) (random_choice pool).
Proof.
  intros s a. destruct pool as [|x pool]; [discriminate|].
  unfold random_choice, bind, rand, ret.
  destruct (draw (world s)) as [i w']. cbn [fst].
  set (n := (N.to_nat i mod length (x :: pool))%nat).
  assert (Hn : (n < length (x :: pool))%nat)
    by (apply Nat.mod_upper_bound; discriminate).
  clearbody n. intros [= <-]. apply list_elem_of_In.
  exact (nth_In (x :: pool) x Hn).
Qed.

(** [random.randint] returns a number of the range. *)
Lemma yields_randint (a b : Z) :
  yields (fun clicks => a <= clicks <= b) (randint a b).
Proof.
  intros s z. unfold randint.
  destruct (b <? a) eqn:Hba; [discriminate|]. apply Z.ltb_ge in Hba.
  unfold bind, rand, ret. destruct (draw (world s)) as [i w']. cbn [fst].
  intros [= <-].
  pose proof (Z.mod_pos_bound (Z.of_N i) (b - a + 1) ltac:(lia)). lia.
Qed.

Lemma random_choice_emits (P : Event -> bool) (pool : list pystr) :
  emits P (random_choice pool).
Proof. unfold random_choice. compose_emits. Qed.

Lemma randint_emits (P : Event -> bool) (a b : Z) : emits P (randint a b).
Proof. unfold randint. compose_emits. Qed.

Lemma comment_and_reply_moderate (sd : Session) (cycle : Z) (lo hi : Z) :
  emits (moderate comments lo hi) (comment_and_reply comments sd cycle).
Proof.
  unfold comment_and_reply, sleep_random, take_screenshot. cbv zeta.
  do 4 (apply emits_bind; [compose_emits|intros _]).
  apply (emits_bind_yields _ _ _ _ (random_choice_emits _ _)
           (yields_random_choice comments)).
  intros comment_text Hc.
  apply emits_bind.
  { unfold _post_comment. apply emits_try; [|intros e; compose_emits].
    apply emits_call. intros r. unfold moderate. simpl.
    now rewrite bool_decide_eq_true_2. }
  intros comment_success.
  do 4 (apply emits_bind; [compose_emits|intros _]).
  apply (emits_bind_yields _ _ _ _ (random_choice_emits _ _)
           (yields_random_choice comments)).
  intros reply_text Hr.
  apply emits_bind.
  { unfold _reply_to_comment. apply emits_try; [|intros e; compose_emits].
    apply emits_call. intros r. unfold moderate. simpl.
    now rewrite bool_decide_eq_true_2. }
  intros reply_success. compose_emits.
Qed.

Lemma cycle_body_moderate (sd : Session) (cycle : Z) :
  emits (moderate comments (min_next_clicks config) (max_next_clicks config))
    (cycle_body config comments sd cycle).
Proof.
  unfold cycle_body. apply emits_bind.
  { unfold cycle_until_comments, take_screenshot, _open_first_video,
      _open_comments, sleep_random. cbv zeta. compose_emits. }
  intros opened. unfold cycle_after_comments. apply emits_bind.
  { destruct opened; [apply comment_and_reply_moderate|compose_emits]. }
  intros _.
  apply (emits_bind_yields _ _ _ _ (randint_emits _ _ _)
           (yields_randint _ _)).
  intros clicks Hclicks.
  apply emits_bind; [compose_emits|intros _].
  apply emits_bind; [|intros _; unfold sleep_random; compose_emits].
  unfold _click_next_button. apply emits_try; [|intros e; compose_emits].
  apply emits_call. intros r. unfold moderate. simpl.
  apply andb_true_intro. split; [apply Z.leb_le|apply Z.leb_le]; lia.
Qed.

Lemma run_cycles_moderate (sd : Session) (cycles : list Z) :
  emits (moderate comments (min_next_clicks config) (max_next_clicks config))
    (run_cycles config comments sd cycles).
Proof.
  induction cycles as [|c cycles IH]; simpl; [apply emits_ret|].
  apply emits_bind; [apply cycle_body_moderate|intros _; exact IH].
Qed.

(** Whatever the collaborator does, [process_videos] posts and replies only
    with texts of the comment pool, and asks [_click_next_button] only for a
    number of clicks between [min_next_clicks] and [max_next_clicks]. *)
Theorem process_videos_moderate (sd : Session) (s : St) :
  exists t,
    trace (snd (process_videos config comments sd s)) = trace s ++ t /\
    (forall page text r,
       In (ECall (PostCommentProbe page text) r) t \/
       In (ECall (ReplyProbe page text) r) t ->
       In text comments) /\
    (forall page clicks r,
       In (ECall (ClickNextProbe page clicks) r) t ->
       min_next_clicks config <= clicks <= max_next_clicks config).
Proof.
  assert (Hem : emits (moderate comments (min_next_clicks config)
                         (max_next_clicks config))
                  (process_videos config comments sd)).
  { unfold process_videos. apply emits_try; [|intros e; compose_emits].
    apply emits_bind; [compose_emits|intros _].
    apply emits_bind; [apply run_cycles_moderate|intros _].
    compose_emits. }
  destruct (Hem s) as (t & Ht & Hp). exists t. split; [exact Ht|].
  rewrite forallb_forall in Hp. split.
  - intros page text r [Hin|Hin]; apply Hp in Hin;
      unfold moderate in Hin; simpl in Hin;
      apply andb_prop in Hin as [Hin _];
      apply bool_decide_eq_true_1 in Hin; now apply list_elem_of_In.
  - intros page clicks r Hin. apply Hp in Hin.
    unfold moderate in Hin. simpl in Hin.
    apply andb_prop in Hin as [Hlo Hhi].
    apply Z.leb_le in Hlo. apply Z.leb_le in Hhi. lia.
Qed.

Lemma adds_zero {A} (N P : Event -> bool) (m : M A) :
  (forall ev, N ev = true -> P ev = false) -> emits N m -> adds P 0 m.
Proof.
  intros Hnp Hm s. destruct (Hm s) as (t & Ht & Hn). exists t.
  rewrite (count_outside N P t Hnp Hn). auto.
Qed.

Lemma adds_bind {A B} (P : Event -> bool) (n1 n2 : nat) (m : M A)
    (k : A -> M B) :
  adds P n1 m -> (forall a, adds P n2 (k a)) -> adds P (n1 + n2) (bind m k).
Proof.
  intros Hm Hk s. unfold bind. destruct (Hm s) as (t1 & Ht1 & Hle1 & Heq1).
  destruct (m s) as [[a|e|] s']; simpl in *.
  - destruct (Hk a s') as (t2 & Ht2 & Hle2 & Heq2).
    exists (t1 ++ t2). rewrite Ht2, Ht1, app_assoc, count_app.
    rewrite (Heq1 a eq_refl). split; [reflexivity|]. split; [lia|].
    intros b Hb. now rewrite (Heq2 b Hb).
  - exists t1. split; [exact Ht1|]. split; [lia|discriminate].
  - exists t1. split; [exact Ht1|]. split; [lia|discriminate].
Qed.

Lemma adds_log_zero (P : Event -> bool) (lvl : Level) (msg : LogMsg) :
  P (ELog lvl msg) = false -> adds P 0 (log lvl msg).
Proof.
  intros Hp s. exists [ELog lvl msg]. unfold count. simpl. rewrite Hp. auto.
Qed.

Lemma not_cycle_start_spec (ev : Event) :
  not_cycle_start ev = true -> is_cycle_start ev = false.
Proof. unfold not_cycle_start. now destruct (is_cycle_start ev). Qed.

Lemma not_advance_spec (ev : Event) :
  not_advance ev = true -> is_advance ev = false.
Proof. unfold not_advance. now destruct (is_advance ev). Qed.

Lemma not_videos_error_spec (ev : Event) :
  not_videos_error ev = true -> is_videos_error ev = false.
Proof. unfold not_videos_error. now destruct (is_videos_error ev). Qed.

(** A cycle logs its start once and, when it completes, has called
    [_click_next_button] once. *)
Lemma cycle_body_starts (sd : Session) (cycle : Z) :
  adds is_cycle_start 1 (cycle_body config comments sd cycle).
Proof.
  unfold cycle_body, cycle_until_comments. cbv zeta.
  apply (adds_bind _ 1 0); [|intros opened].
  - apply (adds_bind _ 1 0).
    + intros s. exists [ELog Info (CycleStart cycle)]. simpl. auto.
    + intros _. apply (adds_zero not_cycle_start);
        [exact not_cycle_start_spec|].
      unfold take_screenshot, _open_first_video, _open_comments, sleep_random.
      compose_emits.
  - apply (adds_zero not_cycle_start); [exact not_cycle_start_spec|].
    unfold cycle_after_comments, comment_and_reply, take_screenshot,
      _post_comment, _reply_to_comment, _click_next_button, sleep_random,
      random_choice, randint.
    cbv zeta. compose_emits.
Qed.

Lemma click_next_advances (page : Handle) (clicks : Z) :
  adds is_advance 1 (_click_next_button page clicks).
Proof.
  intros s. unfold _click_next_button. unfold_monad.
  split_respond; eexists; (split; [cbn [trace]; rewrite <- ?app_assoc;
                                   reflexivity|]);
    simpl; auto.
Qed.

Lemma cycle_body_advances (sd : Session) (cycle : Z) :
  adds is_advance 1 (cycle_body config comments sd cycle).
Proof.
  unfold cycle_body.
  apply (adds_bind _ 0 1); [|intros opened].
  - apply (adds_zero not_advance); [exact not_advance_spec|].
    unfold cycle_until_comments, take_screenshot, _open_first_video,
      _open_comments, sleep_random.
    cbv zeta. compose_emits.
  - unfold cycle_after_comments.
    apply (adds_bind _ 0 1); [|intros _].
    { apply (adds_zero not_advance); [exact not_advance_spec|].
      unfold comment_and_reply, take_screenshot, _post_comment,
        _reply_to_comment, sleep_random, random_choice.
      cbv zeta. compose_emits. }
    apply (adds_bind _ 0 1); [|intros clicks].
    { apply (adds_zero not_advance); [exact not_advance_spec|].
      unfold randint. compose_emits. }
    apply (adds_bind _ 0 1); [|intros _].
    { apply (adds_zero not_advance); [exact not_advance_spec|].
      compose_emits. }
    apply (adds_bind _ 1 0); [apply click_next_advances|intros _].
    apply (adds_zero not_advance); [exact not_advance_spec|].
    unfold sleep_random. compose_emits.
Qed.

Lemma run_cycles_adds (P : Event -> bool) (sd : Session) (cycles : list Z) :
  (forall cycle, adds P 1 (cycle_body config comments sd cycle)) ->
  adds P (length cycles) (run_cycles config comments sd cycles).
Proof.
  intros Hbody. induction cycles as [|c cycles IH]; simpl.
  - intros s. exists []. rewrite app_nil_r. auto.
  - apply (adds_bind _ 1 (length cycles)); [apply Hbody|intros _; exact IH].
Qed.

Lemma py_range_length (lo hi : Z) :
  length (py_range lo hi) = Z.to_nat (hi - lo).
Proof. unfold py_range. now rewrite length_map, length_seq. Qed.

(** [process_videos] never raises.  It returns [True] only after all
    [cycles_per_account] cycles, each of which advanced the feed once, and
    without the line of its handler; it returns [False] after at most that
    many cycles, its last two lines being the one line of the handler that
    reports the exception and the traceback line.  (Error lines of the
    steps, such as the one for a comment panel that stays closed, may occur
    in both cases.) *)
Theorem process_videos_cycles (sd : Session) (s : St) :
  exists t,
    trace (snd (process_videos config comments sd s)) = trace s ++ t /\
    (count is_cycle_start t <= Z.to_nat (cycles_per_account config))%nat /\
    (count is_advance t <= Z.to_nat (cycles_per_account config))%nat /\
    match fst (process_videos config comments sd s) with
    | Ret true =>
        count is_cycle_start t = Z.to_nat (cycles_per_account config) /\
        count is_advance t = Z.to_nat (cycles_per_account config) /\
        count is_videos_error t = 0%nat
    | Ret false =>
        count is_videos_error t = 1%nat /\
        exists e t0,
          t = t0 ++ [ELog Error (VideosError e); ELog Error VideosTraceback]
    | _ => False
    end.
Proof.
  set (body := log Info (VideosStart (email (s_account sd))) ;;
               run_cycles config comments sd
                 (py_range 1 (cycles_per_account config + 1)) ;;
               log Success (CyclesDone (cycles_per_account config)
                              (email (s_account sd))) ;;
               ret true).
  assert (Hlen : length (py_range 1 (cycles_per_account config + 1))
                 = Z.to_nat (cycles_per_account config))
    by (rewrite py_range_length; f_equal; lia).
  assert (Hcount : forall P,
             (forall cycle, adds P 1 (cycle_body config comments sd cycle)) ->
             P (ELog Info (VideosStart (email (s_account sd)))) = false ->
             P (ELog Success (CyclesDone (cycles_per_account config)
                                (email (s_account sd)))) = false ->
             adds P (Z.to_nat (cycles_per_account config)) body).
  { intros P Hbody H1 H2. unfold body.
    replace (Z.to_nat (cycles_per_account config))
      with (0 + (length (py_range 1 (cycles_per_account config + 1))
                 + (0 + 0)))%nat by lia.
    apply adds_bind; [now apply adds_log_zero|intros _].
    apply adds_bind; [now apply run_cycles_adds|intros _].
    apply adds_bind; [now apply adds_log_zero|intros _].
    intros s0. exists []. rewrite app_nil_r. auto. }
  assert (Herr : emits not_videos_error body).
  { unfold body. apply emits_bind; [compose_emits|intros _].
    apply emits_bind; [|intros _; compose_emits].
    clear. induction (py_range 1 (cycles_per_account config + 1))
      as [|c cycles IH]; simpl; [apply emits_ret|].
    apply emits_bind; [|intros _; exact IH].
    unfold cycle_body, cycle_until_comments, cycle_after_comments,
      comment_and_reply, take_screenshot, _open_first_video, _open_comments,
      _post_comment, _reply_to_comment, _click_next_button, sleep_random,
      random_choice, randint.
    cbv zeta. compose_emits. }
  assert (Hterm : terminates body).
  { unfold body. apply terminates_bind; [compose_terminates|intros _].
    apply terminates_bind; [apply run_cycles_terminates|intros _].
    compose_terminates. }
  assert (Hyield : forall s0 b, fst (body s0) = Ret b -> b = true).
  { intros s0 b. unfold body, bind, log, emit, ret.
    destruct (run_cycles _ _ _ _ _) as [[[]|e|] s1]; simpl; congruence. }
  destruct (Hcount is_cycle_start (cycle_body_starts sd) eq_refl eq_refl s)
    as (t & Ht & Hle1 & Heq1).
  destruct (Hcount is_advance (cycle_body_advances sd) eq_refl eq_refl s)
    as (t' & Ht' & Hle2 & Heq2).
  destruct (Herr s) as (t'' & Ht'' & Hne).
  rewrite Ht in Ht', Ht''. apply app_inv_head in Ht', Ht''. subst t' t''.
  pose proof (count_outside _ _ _ not_videos_error_spec Hne) as Hzero.
  specialize (Hterm s). specialize (Hyield s).
  change (process_videos config comments sd)
    with (try_except body
            (fun e => log Error (VideosError e) ;;
                      log Error VideosTraceback ;; ret false)).
  unfold try_except.
  destruct (body s) as [[b|e|] s1]; simpl in *; [| |congruence].
  - rewrite (Hyield b eq_refl). exists t.
    rewrite (Heq1 b eq_refl), (Heq2 b eq_refl). repeat split; auto.
  - unfold_monad. cbn [fst snd trace].
    exists (t ++ [ELog Error (VideosError e); ELog Error VideosTraceback]).
    rewrite Ht, <- !app_assoc. split; [reflexivity|].
    rewrite !count_app, Hzero. unfold count in *. simpl.
    repeat split; try lia. now exists e, t.
Qed.

End VideosFacts.

(** ** The account task and the orchestrator, continued *)

(** [process_account] never raises: it returns [True] exactly when [login]
    returned a session, and [False] when [login] returned [None] or
    raised. *)
Theorem process_account_result {env : Collaborators} (config : BotConfig)
    (comments : list pystr) (account : Account) (proxy : option Proxy)
    (s : St) :
  fst (process_account config comments account proxy s)
  = Ret match fst (login config account proxy s) with
        | Ret (Some _) => true
        | _ => false
        end.
Proof.
  pose proof (login_terminates config account proxy s) as Hterm.
  destruct (login config account proxy s) as [[[sd|]|e|] s1] eqn:Hl;
    simpl in *; [| | |congruence].
  - destruct (process_account_after_login config comments _ _ _ _ _ Hl)
      as (b & s2 & _ & ->). reflexivity.
  - unfold process_account, try_except, bind. rewrite Hl. reflexivity.
  - unfold process_account, try_except, bind. rewrite Hl. reflexivity.
Qed.

Lemma sequential_schedule_blocked (outcomes : list (Outcome bool)) (n : nat) :
  run_schedule outcomes (sequential_schedule (S n)) (init_state 0 (S n))
  = None.
Proof. reflexivity. Qed.

(** A run of [main] that completes was given accounts and a gate that
    admits a task. *)
Lemma main_with_completed_inv
    (run_task : nat -> Account -> option Proxy -> Outcome bool)
    (config : BotConfig) (accounts : list Account) (proxies : list Proxy)
    (summary : Summary) :
  main_with run_task config accounts proxies = Completed summary ->
  summary = {| results := task_outcomes run_task accounts proxies;
               processed := length accounts;
               succeeded :=
                 count_success (task_outcomes run_task accounts proxies) |}.
Proof.
  intros H. destruct accounts as [|a0 rest] eqn:Ea; [discriminate|].
  rewrite <- Ea in *.
  destruct (max_concurrent_accounts config <? 0) eqn:Hneg.
  - unfold main_with in H. rewrite Ea, Hneg in H. discriminate.
  - apply Z.ltb_ge in Hneg.
    destruct (max_concurrent_accounts config =? 0) eqn:Hzero.
    + apply Z.eqb_eq in Hzero. unfold main_with in H. rewrite Ea, Hzero in H.
      cbn [Z.ltb Z.compare] in H. rewrite create_tasks_length in H.
      cbn [length] in H. rewrite sequential_schedule_blocked in H.
      discriminate.
    + apply Z.eqb_neq in Hzero.
      rewrite main_with_completes in H; [|congruence|lia].
      now injection H as <-.
Qed.

(** [main] in closed form: nothing without accounts; an exception of the
    semaphore for a negative limit; tasks that never start for a limit of
    zero; otherwise the results of the tasks in account order, the number
    of accounts and the number of results that are [True]. *)
Theorem main_with_outcome
    (run_task : nat -> Account -> option Proxy -> Outcome bool)
    (config : BotConfig) (accounts : list Account) (proxies : list Proxy) :
  main_with run_task config accounts proxies
  = match accounts with
    | [] => NoAccounts
    | _ :: _ =>
        if max_concurrent_accounts config <? 0 then SemaphoreRaises
        else if max_concurrent_accounts config =? 0 then NeverCompletes
        else Completed
               {| results := task_outcomes run_task accounts proxies;
                  processed := length accounts;
                  succeeded :=
                    count_success (task_outcomes run_task accounts proxies) |}
    end.
Proof.
  destruct accounts as [|a0 rest] eqn:Ea; [reflexivity|]. rewrite <- Ea.
  destruct (max_concurrent_accounts config <? 0) eqn:Hneg.
  - unfold main_with. rewrite Ea, Hneg. reflexivity.
  - apply Z.ltb_ge in Hneg.
    destruct (max_concurrent_accounts config =? 0) eqn:Hzero.
    + apply Z.eqb_eq in Hzero. unfold main_with. rewrite Ea, Hzero.
      cbn [Z.ltb Z.compare]. rewrite create_tasks_length.
      cbn [length]. now rewrite sequential_schedule_blocked.
    + apply Z.eqb_neq in Hzero.
      rewrite main_with_completes; [reflexivity|congruence|lia].
Qed.

Lemma count_success_le (rs : list (Outcome bool)) :
  (count_success rs <= length rs)%nat.
Proof. unfold count_success. apply filter_length_le. Qed.

(** When [main] completes on the account sessions of this program, every
    result is a boolean (no task raised into [gather]), there is one result
    per account, and the success count is at most the processed count. *)
Theorem main_results_boolean {env : Collaborators} (config : BotConfig)
    (comments : list pystr) (worlds : nat -> W) (accounts : list Account)
    (proxies : list Proxy) (summary : Summary) :
  main config comments worlds accounts proxies = Completed summary ->
  Forall (fun r => exists b, r = Ret b) (results summary) /\
  length (results summary) = processed summary /\
  processed summary = length accounts /\
  (succeeded summary <= processed summary)%nat.
Proof.
  unfold main. intros H. apply main_with_completed_inv in H. subst summary.
  simpl.
  pose proof (task_outcomes_length (session_task config comments worlds)
                accounts proxies) as Hlen.
  repeat split; auto.
  - apply Forall_forall. intros r Hr.
    apply list_elem_of_lookup in Hr as [i Hi].
    rewrite task_outcomes_lookup in Hi.
    destruct (accounts !! i) as [a|]; [|discriminate].
    injection Hi as <-. apply session_task_returns.
  - rewrite <- Hlen. apply count_success_le.
Qed.

(** The assignment of proxies wraps around: the accounts at [i] and at
    [i + len(proxies)] get the same entry, and with at least as many
    proxies as accounts each account gets the entry of its own index. *)
Theorem proxy_assignment_wraps (proxies : list Proxy) (i : nat) :
  assign_proxy proxies (i + length proxies) = assign_proxy proxies i /\
  ((i < length proxies)%nat -> assign_proxy proxies i = proxies !! i).
Proof.
  destruct proxies as [|p ps]; [split; reflexivity|].
  unfold assign_proxy. split.
  - replace (i + length (p :: ps))%nat with (i + 1 * length (p :: ps))%nat
      by lia.
    now rewrite Nat.Div0.mod_add.
  - intros Hlt. now rewrite Nat.mod_small.
Qed.

(** ** Concrete runs *)

Lemma read_proxies_well_formed_witness :
  exists host port,
    server {| server := proxy_server (lit "http") (lit "10.0.0.1") (lit "8080");
              proxy_username := Some (lit "user");
              proxy_password := Some (lit "pw") |}
    = proxy_server (lit "http") host port /\
    ~ In colon host /\ ~ In colon port.
Proof.
  destruct (read_proxies_well_formed (lit "http") sample_proxy_file
              {| server := proxy_server (lit "http") (lit "10.0.0.1")
                             (lit "8080");
                 proxy_username := Some (lit "user");
                 proxy_password := Some (lit "pw") |})
    as (host & port & Hs & Hh & Hp & _).
  - vm_compute. left. reflexivity.
  - exists host, port. auto.
Defined.

Lemma login_session_open_witness :
  exists p b,
    s_playwright sample_session = Some p /\
    s_browser sample_session = Some b /\
    s_account sample_session = alice.
Proof.
  destruct (login_session_open (env:=scripted all_good) (sample_config 3 1)
              alice None (start all_good)
              (snd (login (env:=scripted all_good) (sample_config 3 1) alice
                      None (start all_good)))
              sample_session)
    as (p & b & t0 & t & Hp & Hb & Ha & _).
  - vm_compute. reflexivity.
  - exists p, b. auto.
Defined.

Lemma login_raises_only_on_release_witness :
  exists t ev,
    trace (snd (login (env:=scripted rejected_close_raises)
                  (sample_config 3 1) alice None
                  (start rejected_close_raises)))
    = trace (start rejected_close_raises) ++ t /\
    last t = Some ev /\ is_failed_release (DriverError 7) ev.
Proof.
  apply (login_raises_only_on_release (env:=scripted rejected_close_raises)
           (sample_config 3 1) alice None (start rejected_close_raises)).
  vm_compute. reflexivity.
Defined.

Lemma failed_setup_releases_nothing_witness :
  fst (login_attempt (env:=launch_fails) (sample_config 3 1) alice None 1
         (initial (env:=launch_fails) tt)) = Ret None /\
  liveness (trace (snd (login_attempt (env:=launch_fails) (sample_config 3 1)
                          alice None 1 (initial (env:=launch_fails) tt))))
  = {| live_drivers := [1%nat]; live_browsers := []; clean := true |}.
Proof.
  destruct (failed_setup_releases_nothing (env:=launch_fails)
              (sample_config 3 1) alice None 1
              (initial (env:=launch_fails) tt)
              (snd (setup_browser (env:=launch_fails) (sample_config 3 1) None
                      (snd (log (env:=launch_fails) Info
                              (LoginAttempt (email alice) 1 3)
                              (initial (env:=launch_fails) tt)))))
              (DriverError 3))
    as [Hrun _].
  - vm_compute. reflexivity.
  - rewrite Hrun. split; [reflexivity|]. vm_compute. reflexivity.
Defined.

Lemma close_session_stops_driver_witness :
  exists r s',
    close_session (env:=scripted all_good) (Some sample_session)
      (start all_good) = (Ret tt, s') /\
    (trace s'
     = trace (start all_good)
       ++ [ECall (BrowserClose 2%nat) (ROk tt);
           ECall (PlaywrightStop 1%nat) r;
           ELog Info (SessionClosed (email (s_account sample_session)))]
     \/ exists e,
          r = RRaise e /\
          trace s'
          = trace (start all_good)
            ++ [ECall (BrowserClose 2%nat) (ROk tt);
                ECall (PlaywrightStop 1%nat) r;
                ELog Error (CloseError e)]).
Proof.
  apply (close_session_stops_driver (env:=scripted all_good)
           sample_session 2%nat 1%nat (start all_good)
           (tt : @W (scripted all_good)) eq_refl eq_refl eq_refl).
Defined.

Lemma gate_progress_witness :
  exists a st',
    apply_action [Ret true; Ret false] a
      {| sem := 0; phases := [InSession; Waiting] |} = Some st'.
Proof.
  apply (gate_progress [Ret true; Ret false] 1
           {| sem := 0; phases := [InSession; Waiting] |}).
  - lia.
  - exists [Acquire 0; LoginOk 0]. reflexivity.
  - reflexivity.
Defined.

Lemma main_results_boolean_witness :
  Forall (fun r => exists b, r = Ret b) [Ret true; Ret true] /\
  (2 <= 2)%nat.
Proof.
  destruct (main_results_boolean (env:=scripted all_good) one_at_a_time
              [lit "nice"] (fun _ => tt) [alice; bob] [proxy_a]
              {| results := [Ret true; Ret true];
                 processed := 2; succeeded := 2 |})
    as (Hb & _ & _ & Hle).
  - vm_compute. reflexivity.
  - split; [exact Hb|exact Hle].
Defined.

Lemma proxy_assignment_wraps_witness :
  assign_proxy [proxy_a; proxy_b] 3 = Some proxy_b /\
  assign_proxy [proxy_a; proxy_b] 1 = Some proxy_b.
Proof.
  destruct (proxy_assignment_wraps [proxy_a; proxy_b] 1) as [Hw Hs].
  split; [exact Hw|]. apply Hs. simpl. lia.
Defined.

(** [close_session] never raises.  Given no session it does nothing; given
    one it ends with exactly one line of its own, the notice that the
    session is closed or the error that stopped the closing. *)
Theorem close_session_one_line {env : Collaborators}
    (session_data : option Session) (s : St) :
  fst (close_session session_data s) = Ret tt /\
  exists t,
    trace (snd (close_session session_data s)) = trace s ++ t /\
    match session_data with
    | None => t = []
    | Some sd =>
        last t = Some (ELog Info (SessionClosed (email (s_account sd)))) \/
        exists e, last t = Some (ELog Error (CloseError e))
    end.
Proof.
  unfold close_session. destruct session_data as [sd|].
  2: { split; [reflexivity|]. exists []. now rewrite app_nil_r. }
  destruct (s_browser sd) as [b|], (s_playwright sd) as [p|];
    unfold_monad; cbn [world trace];
    repeat match goal with
      | |- context [respond ?A ?w ?c] =>
          destruct (respond A w c) as [[[]|?] ?]; cbn [world trace fst snd]
      end;
    cbn [fst snd trace];
    (split; [reflexivity|]);
    eexists; (split; [rewrite <- ?app_assoc; reflexivity|]);
    simpl; eauto.
Qed.

(** *** The comment pool *)

Lemma lstrip_split (s : pystr) :
  exists sp, s = sp ++ lstrip s /\ forallb py_isspace sp = true.
Proof.
  induction s as [|c s (sp & Hs & Hsp)]; [now exists []|]. simpl.
  destruct (py_isspace c) eqn:Hc; [|now exists []].
  exists (c :: sp). simpl. rewrite Hc, Hsp. split; [congruence|reflexivity].
Qed.

Lemma lstrip_head (s : pystr) :
  match lstrip s with [] => True | c :: _ => py_isspace c = false end.
Proof.
  induction s as [|c s IH]; simpl; [exact I|].
  destruct (py_isspace c) eqn:Hc; [exact IH|exact Hc].
Qed.

Lemma lstrip_fixed (s : pystr) :
  match s with [] => True | c :: _ => py_isspace c = false end ->
  lstrip s = s.
Proof. destruct s as [|c s]; simpl; [reflexivity|]. now intros ->. Qed.

(** Stripping a stripped string changes nothing. *)
Lemma strip_idempotent (s : pystr) : strip (strip s) = strip s.
Proof.
  unfold strip.
  pose proof (lstrip_head s) as Hx.
  destruct (lstrip_split (rev (lstrip s))) as (sp & Hs & _).
  pose proof (lstrip_head (rev (lstrip s))) as Hy.
  set (x := lstrip s) in *. set (y := lstrip (rev x)) in *.
  assert (Hxy : x = rev y ++ rev sp).
  { rewrite <- rev_app_distr, <- Hs. now rewrite rev_involutive. }
  assert (Hr : lstrip (rev y) = rev y).
  { apply lstrip_fixed. destruct (rev y) as [|c r]; [exact I|].
    rewrite Hxy in Hx. exact Hx. }
  rewrite Hr, rev_involutive. now rewrite (lstrip_fixed y Hy).
Qed.

(** [read_comments] never raises, and no comment of the pool it returns is
    empty or has white space at either end. *)
Theorem read_comments_pool_clean {env : Collaborators} (config : BotConfig)
    (s : St) :
  exists pool,
    fst (read_comments config s) = Ret pool /\
    Forall (fun c => truthy c = true /\ strip c = c) pool.
Proof.
  unfold read_comments. unfold_monad.
  destruct (respond _ (world s) (ReadLines (comments_file config)))
    as [[lines|e] w']; cbn [fst snd].
  - eexists. split; [reflexivity|].
    apply List.Forall_forall. intros c Hc.
    apply in_map_iff in Hc as (line & <- & Hl).
    apply filter_In in Hl as [_ Ht].
    split; [exact Ht|apply strip_idempotent].
  - eexists. split; [reflexivity|].
    repeat constructor.
Qed.

(** ** The page actions in detail *)

Section PageFacts.

Context {drv : PageDriver}.

Lemma pterminates_ret {A} (a : A) : pterminates (pret a).
Proof. intros s; discriminate. Qed.

Lemma pterminates_emit (ev : PageEvent) : pterminates (pemit ev).
Proof. intros s; discriminate. Qed.

Lemma pterminates_sleep (p : Pause) : pterminates (psleep p).
Proof.
  intros s. destruct p; simpl; try discriminate.
  destruct (page_draw (pworld s)). discriminate.
Qed.

Lemma pterminates_call {A} (c : PageCall A) : pterminates (pcall c).
Proof.
  intros s. unfold pcall.
  destruct (page_respond A (pworld s) c) as [[a|e] w']; discriminate.
Qed.

Lemma pterminates_bind {A B} (m : PM A) (k : A -> PM B) :
  pterminates m -> (forall a, pterminates (k a)) -> pterminates (pbind m k).
Proof.
  intros Hm Hk s. unfold pbind. specialize (Hm s).
  destruct (m s) as [[a|e|] s']; simpl in *; [apply Hk|discriminate|congruence].
Qed.

Lemma pterminates_try {A} (m : PM A) (h : exn -> PM A) :
  pterminates m -> (forall e, pterminates (h e)) -> pterminates (ptry m h).
Proof.
  intros Hm Hh s. unfold ptry. specialize (Hm s).
  destruct (m s) as [[a|e|] s']; simpl in *; [discriminate|apply Hh|congruence].
Qed.

Lemma pterminates_raise {A} (e : exn) : pterminates (@praise _ A e).
Proof. intros s; discriminate. Qed.

Lemma pterminates_rand : pterminates prand.
Proof. intros s. unfold prand. destruct (page_draw (pworld s)). discriminate. Qed.

Lemma pterminates_randint (a b : Z) : pterminates (prandint a b).
Proof.
  unfold prandint. destruct (b <? a); [apply pterminates_raise|].
  apply pterminates_bind; [apply pterminates_rand|intros i].
  apply pterminates_ret.
Qed.

Lemma preturns_terminates {A} (m : PM A) : preturns m -> pterminates m.
Proof. intros Hm s. destruct (Hm s) as [a ->]. discriminate. Qed.

Lemma preturns_ret {A} (a : A) : preturns (pret a).
Proof. intros s. now exists a. Qed.

Lemma preturns_emit (ev : PageEvent) : preturns (pemit ev).
Proof. intros s. now exists tt. Qed.

Lemma preturns_sleep (p : Pause) : preturns (psleep p).
Proof.
  intros s. exists tt. destruct p; simpl; try reflexivity.
  now destruct (page_draw (pworld s)).
Qed.

Lemma preturns_bind {A B} (m : PM A) (k : A -> PM B) :
  preturns m -> (forall a, preturns (k a)) -> preturns (pbind m k).
Proof.
  intros Hm Hk s. unfold pbind. destruct (Hm s) as [a Ha].
  destruct (m s) as [o s']. simpl in Ha. subst o. apply Hk.
Qed.

Lemma preturns_try {A} (m : PM A) (h : exn -> PM A) :
  pterminates m -> (forall e, preturns (h e)) -> preturns (ptry m h).
Proof.
  intros Hm Hh s. unfold ptry. specialize (Hm s).
  destruct (m s) as [[a|e|] s']; simpl in *;
    [now exists a | apply Hh | congruence].
Qed.

(** What a computation that returns does to the state. *)
Lemma pbind_returns {A B} (m : PM A) (k : A -> PM B) (s : PSt) :
  preturns m ->
  exists a, fst (m s) = Ret a /\ pbind m k s = k a (snd (m s)).
Proof.
  intros Hm. destruct (Hm s) as [a Ha]. exists a. split; [exact Ha|].
  unfold pbind. destruct (m s) as [o s']. simpl in *. now subst o.
Qed.

Lemma ptry_returns {A} (m : PM A) (h : exn -> PM A) (s : PSt) :
  preturns m -> ptry m h s = m s.
Proof.
  intros Hm. destruct (Hm s) as [a Ha]. unfold ptry.
  destruct (m s) as [o s']. simpl in *. now subst o.
Qed.

Lemma pemits_ret {A} (P : PageEvent -> bool) (a : A) : pemits P (pret a).
Proof. intros s. exists []. now rewrite app_nil_r. Qed.

Lemma pemits_raise {A} (P : PageEvent -> bool) (e : exn) :
  pemits P (@praise _ A e).
Proof. intros s. exists []. now rewrite app_nil_r. Qed.

Lemma pemits_rand (P : PageEvent -> bool) : pemits P prand.
Proof.
  intros s. unfold prand. destruct (page_draw (pworld s)). exists [].
  now rewrite app_nil_r.
Qed.

Lemma pemits_randint (P : PageEvent -> bool) (a b : Z) :
  pemits P (prandint a b).
Proof.
  intros s. unfold prandint, pbind, prand, praise, pret.
  destruct (b <? a); [|destruct (page_draw (pworld s))];
    exists []; now rewrite app_nil_r.
Qed.

Lemma pemits_emit (P : PageEvent -> bool) (ev : PageEvent) :
  P ev = true -> pemits P (pemit ev).
Proof. intros Hp s. exists [ev]. simpl. now rewrite Hp. Qed.

Lemma pemits_sleep (P : PageEvent -> bool) (p : Pause) :
  P (PSleep p) = true -> pemits P (psleep p).
Proof.
  intros Hp s. exists [PSleep p]. simpl. rewrite Hp. split; [|reflexivity].
  destruct p; simpl; try reflexivity. now destruct (page_draw (pworld s)).
Qed.

Lemma pemits_call {A} (P : PageEvent -> bool) (c : PageCall A) :
  (forall r, P (PCall c r) = true) -> pemits P (pcall c).
Proof.
  intros Hp s. unfold pcall.
  destruct (page_respond A (pworld s) c) as [[a|e] w']; simpl;
    eexists [_]; simpl; rewrite Hp; auto.
Qed.

Lemma pemits_bind {A B} (P : PageEvent -> bool) (m : PM A) (k : A -> PM B) :
  pemits P m -> (forall a, pemits P (k a)) -> pemits P (pbind m k).
Proof.
  intros Hm Hk s. unfold pbind. destruct (Hm s) as (t1 & Ht1 & Hp1).
  destruct (m s) as [[a|e|] s']; simpl in *; eauto.
  destruct (Hk a s') as (t2 & Ht2 & Hp2).
  exists (t1 ++ t2). rewrite Ht2, Ht1, app_assoc, forallb_app, Hp1, Hp2. auto.
Qed.

Lemma pemits_bind_yields {A B} (P : PageEvent -> bool) (Q : A -> Prop)
    (m : PM A) (k : A -> PM B) :
  pemits P m -> pyields Q m -> (forall a, Q a -> pemits P (k a)) ->
  pemits P (pbind m k).
Proof.
  intros Hm Hq Hk s. unfold pbind. destruct (Hm s) as (t1 & Ht1 & Hp1).
  specialize (Hq s).
  destruct (m s) as [[a|e|] s']; simpl in *; eauto.
  destruct (Hk a (Hq a eq_refl) s') as (t2 & Ht2 & Hp2).
  exists (t1 ++ t2). rewrite Ht2, Ht1, app_assoc, forallb_app, Hp1, Hp2. auto.
Qed.

Lemma pemits_try {A} (P : PageEvent -> bool) (m : PM A) (h : exn -> PM A) :
  pemits P m -> (forall e, pemits P (h e)) -> pemits P (ptry m h).
Proof.
  intros Hm Hh s. unfold ptry. destruct (Hm s) as (t1 & Ht1 & Hp1).
  destruct (m s) as [[a|e|] s']; simpl in *; eauto.
  destruct (Hh e s') as (t2 & Ht2 & Hp2).
  exists (t1 ++ t2). rewrite Ht2, Ht1, app_assoc, forallb_app, Hp1, Hp2. auto.
Qed.

(** A body that returns never reaches its handler. *)
Lemma pemits_try_returns {A} (P : PageEvent -> bool) (m : PM A)
    (h : exn -> PM A) :
  preturns m -> pemits P m -> pemits P (ptry m h).
Proof.
  intros Hr Hm s. rewrite (ptry_returns m h s Hr). apply Hm.
Qed.

End PageFacts.

Ltac compose_pterminates :=
  repeat first
    [ apply pterminates_ret | apply pterminates_emit | apply pterminates_sleep
    | apply pterminates_call | apply pterminates_raise
    | apply pterminates_rand | apply pterminates_randint
    | apply pterminates_bind; [|intros ?]
    | apply pterminates_try; [|intros ?]
    | match goal with
      | |- pterminates (match ?x with _ => _ end) => destruct x
      | |- pterminates (if ?b then _ else _) => destruct b
      end ].

Ltac compose_preturns :=
  repeat first
    [ apply preturns_ret | apply preturns_emit | apply preturns_sleep
    | apply preturns_bind; [|intros ?]
    | apply preturns_try; [compose_pterminates|intros ?]
    | match goal with
      | |- preturns (match ?x with _ => _ end) => destruct x
      | |- preturns (if ?b then _ else _) => destruct b
      end ].

Ltac compose_pemits :=
  repeat first
    [ apply pemits_ret | apply pemits_raise | apply pemits_rand
    | apply pemits_randint
    | apply pemits_emit; reflexivity
    | apply pemits_sleep; reflexivity
    | apply pemits_call; intros ?; reflexivity
    | apply pemits_bind; [|intros ?]
    | apply pemits_try; [|intros ?]
    | match goal with
      | |- pemits _ (match ?x with _ => _ end) => destruct x
      | |- pemits _ (if ?b then _ else _) => destruct b
      end ].

Section PageActionFacts.

Context {drv : PageDriver}.

Lemma click_times_terminates (page : Handle) (sel : Selector) (n : nat) :
  pterminates (click_times page sel n).
Proof.
  induction n as [|n IH]; cbn [click_times]; [apply pterminates_ret|].
  unfold plog. compose_pterminates. exact IH.
Qed.

Lemma press_times_terminates (page : Handle) (k : Key) (n : nat) :
  pterminates (press_times page k n).
Proof.
  induction n as [|n IH]; cbn [press_times]; [apply pterminates_ret|].
  unfold plog. compose_pterminates. exact IH.
Qed.

Lemma script_clicks_returns (page : Handle) (n : nat) :
  forall success, preturns (script_clicks page n success).
Proof.
  induction n as [|n IH]; intros success; cbn [script_clicks]; [apply preturns_ret|].
  apply preturns_bind.
  - unfold plog. compose_preturns.
  - intros [[|]|]; unfold plog; compose_preturns. apply IH.
Qed.

Lemma selector_clicks_returns (page : Handle) (sels : list Selector)
    (n : nat) :
  preturns (selector_clicks page sels n).
Proof.
  induction sels as [|sel sels IH]; cbn [selector_clicks]; [apply preturns_ret|].
  apply preturns_bind.
  - apply preturns_try; [|intros e; unfold plog; compose_preturns].
    apply pterminates_bind; [apply pterminates_call|intros count].
    destruct (0 <? count); [|apply pterminates_ret].
    apply pterminates_bind; [apply click_times_terminates|intros _].
    apply pterminates_ret.
  - intros [|]; [apply preturns_ret|exact IH].
Qed.

Lemma click_first_match_returns (page : Handle) (sels : list Selector) :
  preturns (click_first_match page sels).
Proof.
  induction sels as [|sel sels IH]; cbn [click_first_match]; [apply preturns_ret|].
  apply preturns_bind.
  - unfold plog. compose_preturns.
  - intros [|]; [apply preturns_ret|exact IH].
Qed.

Lemma click_post_button_returns (page : Handle) (sels : list Selector) :
  preturns (click_post_button page sels).
Proof.
  induction sels as [|sel sels IH]; cbn [click_post_button]; [apply preturns_ret|].
  apply preturns_bind.
  - compose_preturns.
  - intros [|]; [apply preturns_ret|exact IH].
Qed.

Lemma post_through_input_returns (page : Handle) (sels posts : list Selector)
    (text : pystr) :
  preturns (post_through_input page sels posts text).
Proof.
  induction sels as [|sel sels IH]; cbn [post_through_input]; [apply preturns_ret|].
  apply preturns_bind.
  - apply preturns_try; [|intros e; unfold plog; compose_preturns].
    apply pterminates_bind; [apply pterminates_call|intros count].
    destruct (0 <? count); [|apply pterminates_ret].
    do 4 (apply pterminates_bind;
          [unfold enter_text; compose_pterminates|intros ?]).
    apply pterminates_bind;
      [apply preturns_terminates, click_post_button_returns|intros ?].
    compose_pterminates.
  - intros [|]; [apply preturns_ret|exact IH].
Qed.

Lemma pick_index_terminates (count : Z) : pterminates (pick_index count).
Proof. apply pterminates_randint. Qed.

Lemma reply_by_text_returns (page : Handle) (words : list ReplyWord)
    (text : pystr) :
  preturns (reply_by_text page words text).
Proof.
  induction words as [|word words IH]; cbn [reply_by_text];
    [apply preturns_ret|].
  apply preturns_bind.
  - compose_preturns.
  - intros [|]; [apply preturns_ret|exact IH].
Qed.

Lemma reply_through_buttons_returns (page : Handle) (sels : list Selector)
    (text : pystr) :
  preturns (reply_through_buttons page sels text).
Proof.
  induction sels as [|sel sels IH]; cbn [reply_through_buttons];
    [apply preturns_ret|].
  apply preturns_bind.
  - apply preturns_try; [|intros e; unfold plog; compose_preturns].
    apply pterminates_bind; [apply pterminates_call|intros count].
    destruct (0 <? count); [|apply pterminates_ret].
    apply pterminates_bind; [apply pick_index_terminates|intros index].
    apply pterminates_bind; [apply pterminates_call|intros [|]];
      [|apply pterminates_ret].
    do 2 (apply pterminates_bind; [compose_pterminates|intros ?]).
    apply preturns_terminates, post_through_input_returns.
  - intros [|]; [apply preturns_ret|exact IH].
Qed.

Lemma reply_through_comments_returns (page : Handle) (sels : list Selector)
    (text : pystr) :
  preturns (reply_through_comments page sels text).
Proof.
  induction sels as [|sel sels IH]; cbn [reply_through_comments];
    [apply preturns_ret|].
  apply preturns_bind.
  - apply preturns_try; [|intros e; unfold plog; compose_preturns].
    apply pterminates_bind; [apply pterminates_call|intros count].
    destruct (0 <? count); [|apply pterminates_ret].
    apply pterminates_bind; [apply pick_index_terminates|intros index].
    do 2 (apply pterminates_bind; [compose_pterminates|intros ?]).
    apply preturns_terminates, reply_by_text_returns.
  - intros [|]; [apply preturns_ret|exact IH].
Qed.

(** The bodies of [_open_first_video], [_open_comments] and
    [_reply_to_comment] handle every failure of the page themselves. *)
Lemma open_first_video_body_returns (page : Handle) :
  preturns
    (done <~ ptry
       (pcall (Evaluate page ClickVideoScript) ;~
        psleep PauseRandom ;~ pret true)
       (fun e => plog Debug (Some e) ;~ pret false) ;;
     if done then pret true
     else
       done <~ click_first_match page (selectors Video 5) ;;
       if done then pret true
       else plog Warning None ;~ pret false).
Proof.
  apply preturns_bind; [unfold plog; compose_preturns|intros [|]];
    [apply preturns_ret|].
  apply preturns_bind; [apply click_first_match_returns|intros [|]];
    unfold plog; compose_preturns.
Qed.

Lemma open_comments_body_returns (page : Handle) :
  preturns
    (done <~ ptry
       (result <~ pcall (Evaluate page ClickCommentsScript) ;;
        if result then psleep PauseRandom ;~ pret true else pret false)
       (fun e => plog Debug (Some e) ;~ pret false) ;;
     if done then pret true
     else
       done <~ click_first_match page (selectors CommentIcon 5) ;;
       if done then pret true
       else
         ptry (pcall (KeyboardPress page KeyC) ;~
               psleep PauseRandom ;~ pret true)
              (fun e => plog Debug (Some e) ;~ pret false)).
Proof.
  apply preturns_bind; [unfold plog; compose_preturns|intros [|]];
    [apply preturns_ret|].
  apply preturns_bind; [apply click_first_match_returns|intros [|]];
    unfold plog; compose_preturns.
Qed.

Lemma reply_to_comment_body_returns (page : Handle) (reply_text : pystr) :
  preturns
    (ptry (dy <~ prandint 200 300 ;;
           pcall (MouseWheel page dy) ;~ psleep PauseMin)
          (fun _ => pret tt) ;~
     done <~ reply_through_buttons page (selectors ReplyButton 4) reply_text ;;
     if done then pret true
     else
       done <~ reply_through_comments page (selectors CommentItem 3)
                 reply_text ;;
       if done then pret true
       else plog Warning None ;~ pret false).
Proof.
  apply preturns_bind; [compose_preturns|intros _].
  apply preturns_bind; [apply reply_through_buttons_returns|intros [|]];
    [apply preturns_ret|].
  apply preturns_bind; [apply reply_through_comments_returns|intros [|]];
    unfold plog; compose_preturns.
Qed.

(** [_click_next_button], [_open_first_video], [_open_comments] and
    [_post_comment] never raise: each returns a boolean, whatever the page
    does. *)
Theorem page_actions_return (page : Handle) (clicks : Z) (text : pystr) :
  preturns (click_next_button page clicks) /\
  preturns (open_first_video page) /\
  preturns (open_comments page) /\
  preturns (post_comment page text).
Proof.
  repeat split.
  - unfold click_next_button. cbv zeta.
    apply preturns_try; [|intros e; unfold plog; compose_preturns].
    apply pterminates_bind;
      [apply preturns_terminates, script_clicks_returns|intros [|]].
    + compose_pterminates.
    + apply pterminates_bind;
        [apply preturns_terminates, selector_clicks_returns|intros [|]];
        [apply pterminates_ret|].
      apply pterminates_bind; [apply press_times_terminates|intros _].
      apply pterminates_ret.
  - unfold open_first_video.
    apply preturns_try; [|intros e; unfold plog; compose_preturns].
    apply preturns_terminates, open_first_video_body_returns.
  - unfold open_comments.
    apply preturns_try; [|intros e; unfold plog; compose_preturns].
    apply preturns_terminates, open_comments_body_returns.
  - unfold post_comment.
    apply preturns_try; [|intros e; unfold plog; compose_preturns].
    apply pterminates_bind;
      [apply preturns_terminates, post_through_input_returns|intros [|]];
      compose_pterminates.
Qed.

End PageActionFacts.

(** *** What the page actions report *)

Ltac bind_returns tac :=
  match goal with
  | H : fst (pbind ?m ?k ?s) = _ |- _ =>
      let a := fresh "a" in
      let Ha := fresh "Ha" in
      let Hb := fresh "Hb" in
      destruct (pbind_returns m k s) as (a & Ha & Hb); [tac|];
      rewrite Hb in *; clear Hb; destruct a; cbn beta iota in *
  end.

(** [_open_first_video] does not look at what its script returns: once
    [page.evaluate] has returned, the function pauses and reports success,
    without trying a selector. *)
Theorem open_first_video_ignores_script {drv : PageDriver} (page : Handle) (s : PSt) (r : bool)
    (w' : PW) :
  page_respond bool (pworld s) (Evaluate page ClickVideoScript)
    = (ROk r, w') ->
  fst (open_first_video page s) = Ret true /\
  ptrace (snd (open_first_video page s))
    = ptrace s ++ [PCall (Evaluate page ClickVideoScript) (ROk r);
                   PSleep PauseRandom].
Proof.
  intros H. unfold open_first_video. unfold_page. rewrite H.
  cbn [pworld ptrace]. destruct (page_draw w') as [n w''].
  cbn [fst snd ptrace]. split; [reflexivity|].
  now rewrite <- app_assoc.
Qed.

Lemma open_first_video_ignores_script_witness :
  fst (@open_first_video nothing_found 4%nat (@pstart nothing_found tt)) = Ret true /\
  ptrace (snd (@open_first_video nothing_found 4%nat (@pstart nothing_found tt)))
    = ptrace (@pstart nothing_found tt)
      ++ [PCall (Evaluate 4%nat ClickVideoScript) (ROk false);
          PSleep PauseRandom].
Proof.
  apply (@open_first_video_ignores_script nothing_found 4%nat
           (@pstart nothing_found tt)
           false tt).
  reflexivity.
Defined.

(** [_open_comments] reports failure only when its last resort, the key C,
    raised: the trace then ends with that call and the debug line. *)
Theorem open_comments_false_after_shortcut {drv : PageDriver} (page : Handle)
    (s : PSt) :
  fst (open_comments page s) = Ret false ->
  exists e l,
    ptrace (snd (open_comments page s))
      = l ++ [PCall (KeyboardPress page KeyC) (RRaise e);
              PLog Debug (Some e)].
Proof.
  unfold open_comments. intros H.
  rewrite (ptry_returns _ _ s (open_comments_body_returns page)) in *.
  bind_returns ltac:(unfold plog; compose_preturns); [discriminate|].
  bind_returns ltac:(apply click_first_match_returns); [discriminate|].
  clear Ha Ha0.
  match goal with
  | |- context [ptry _ _ ?st] => set (s2 := st) in *; clearbody s2
  end.
  unfold_page.
  destruct (page_respond () (pworld s2) (KeyboardPress page KeyC))
    as [[[]|e] w] eqn:E; cbn [pworld ptrace fst snd] in *.
  - destruct (page_draw w); discriminate.
  - exists e, (ptrace s2). now rewrite <- app_assoc.
Qed.

Lemma open_comments_false_after_shortcut_witness :
  exists e l,
    ptrace (snd (@open_comments page_gone 4%nat (@pstart page_gone tt)))
      = l ++ [PCall (KeyboardPress 4%nat KeyC) (RRaise e);
              PLog Debug (Some e)].
Proof.
  apply (@open_comments_false_after_shortcut page_gone 4%nat
           (@pstart page_gone tt)).
  reflexivity.
Defined.

Lemma snoc_snoc {A} (l : list A) (a b : A) : (l ++ [a]) ++ [b] = l ++ [a; b].
Proof. now rewrite <- app_assoc. Qed.

Ltac bind_returns_in tac :=
  match goal with
  | H : context [pbind ?m ?k ?s] |- _ =>
      let a := fresh "a" in
      let Ha := fresh "Ha" in
      let Hb := fresh "Hb" in
      destruct (pbind_returns m k s) as (a & Ha & Hb); [tac|];
      rewrite Hb in *; clear Hb; destruct a; cbn beta iota in *
  end.

(** A run of key presses either completes or stops at the press that
    raised. *)
Lemma press_times_outcome {drv : PageDriver} (page : Handle) (k : Key)
    (n : nat) (s : PSt) :
  fst (press_times page k n s) = Ret tt \/
  exists e l,
    fst (press_times page k n s) = Exc e /\
    ptrace (snd (press_times page k n s))
      = l ++ [PCall (KeyboardPress page k) (RRaise e)].
Proof.
  revert s. induction n as [|n IH]; intros s; cbn [press_times];
    [now left|].
  cbv beta iota delta [pbind pcall plog psleep pemit].
  destruct (page_respond () (pworld s) (KeyboardPress page k))
    as [[[]|e] w] eqn:E; cbv beta iota zeta.
  - match goal with
    | |- context [press_times page k n ?st] => exact (IH st)
    end.
  - right. exists e, (ptrace s). split; reflexivity.
Qed.

(** [_click_next_button] reports failure only when a press of the key N
    raised: the script and the selectors never make it fail. *)
Theorem click_next_false_after_key {drv : PageDriver} (page : Handle)
    (clicks : Z) (s : PSt) :
  fst (click_next_button page clicks s) = Ret false ->
  exists e l,
    ptrace (snd (click_next_button page clicks s))
      = l ++ [PCall (KeyboardPress page KeyN) (RRaise e);
              PLog Error (Some e)].
Proof.
  unfold click_next_button. cbv zeta. unfold ptry. intros H.
  bind_returns_in ltac:(apply script_clicks_returns).
  { unfold pbind, pret in H. discriminate. }
  bind_returns_in ltac:(apply selector_clicks_returns).
  { discriminate. }
  clear Ha Ha0.
  match goal with
  | |- context [pbind (press_times _ _ _) _ ?st] =>
      set (s2 := st) in *; clearbody s2
  end.
  unfold pbind in *.
  destruct (press_times_outcome page KeyN (Z.to_nat clicks) s2)
    as [Hk | (e & l & Hk & Ht)];
    destruct (press_times page KeyN (Z.to_nat clicks) s2) as [o s3];
    cbn [fst snd] in *; subst o.
  - discriminate.
  - exists e, l. unfold_page. cbn [fst snd ptrace]. rewrite Ht.
    apply snoc_snoc.
Qed.

Lemma click_next_false_after_key_witness :
  exists e l,
    ptrace (snd (@click_next_button page_gone 4%nat 2
                   (@pstart page_gone tt)))
      = l ++ [PCall (KeyboardPress 4%nat KeyN) (RRaise e);
              PLog Error (Some e)].
Proof.
  apply (@click_next_false_after_key page_gone 4%nat 2
           (@pstart page_gone tt)).
  reflexivity.
Defined.

(** The script loop keeps a success it has, and adds nothing but script
    calls, debug lines and pauses. *)
Lemma script_clicks_keeps_success {drv : PageDriver} (page : Handle)
    (n : nat) (s : PSt) :
  fst (script_clicks page n true s) = Ret true.
Proof.
  revert s. induction n as [|n IH]; intros s; cbn [script_clicks];
    [reflexivity|].
  cbv beta iota delta [pbind ptry pcall plog psleep pemit pret].
  destruct (page_respond bool (pworld s) (Evaluate page ClickNextScript))
    as [[[|]|e] w]; cbv beta iota zeta; try reflexivity.
  match goal with
  | |- context [script_clicks page n true ?st] => exact (IH st)
  end.
Qed.

Lemma script_clicks_emits {drv : PageDriver} (page : Handle) (n : nat) :
  forall success, pemits is_script_event (script_clicks page n success).
Proof.
  induction n as [|n IH]; intros success; cbn [script_clicks];
    [apply pemits_ret|].
  apply pemits_bind; [unfold plog; compose_pemits|].
  intros [[|]|]; unfold plog; compose_pemits. apply IH.
Qed.

Lemma script_clicks_first_true {drv : PageDriver} (page : Handle) (n : nat)
    (s : PSt) (w' : PW) :
  page_respond bool (pworld s) (Evaluate page ClickNextScript)
    = (ROk true, w') ->
  script_clicks page (S n) false s = script_clicks page (S n) true s.
Proof.
  intros H. cbn [script_clicks].
  cbv beta iota delta [pbind ptry pcall plog psleep pemit pret].
  now rewrite H.
Qed.

(** Once the script has clicked the button a first time,
    [_click_next_button] reports success and uses neither a selector nor
    the keyboard, however many of the requested clicks were made. *)
Theorem first_script_click_is_success {drv : PageDriver} (page : Handle)
    (clicks : Z) (s : PSt) (w' : PW) :
  0 < clicks ->
  page_respond bool (pworld s) (Evaluate page ClickNextScript)
    = (ROk true, w') ->
  exists t,
    fst (click_next_button page clicks s) = Ret true /\
    ptrace (snd (click_next_button page clicks s)) = ptrace s ++ t /\
    forallb is_script_event t = true.
Proof.
  intros Hc H. unfold click_next_button. cbv zeta.
  destruct (Z.to_nat clicks) as [|n] eqn:En; [lia|].
  pose proof (script_clicks_keeps_success page (S n) s) as Hk.
  destruct (script_clicks_emits page (S n) true s) as (t & Ht & Hp).
  exists t. unfold ptry, pbind.
  rewrite (script_clicks_first_true page n s w' H).
  destruct (script_clicks page (S n) true s) as [o s1].
  cbn [fst snd] in *. subst o. cbn [pret fst snd]. auto.
Qed.

Lemma first_script_click_is_success_witness :
  exists t,
    fst (@click_next_button one_click_only 4%nat 3
           (@pstart one_click_only 0%nat)) = Ret true /\
    ptrace (snd (@click_next_button one_click_only 4%nat 3
                   (@pstart one_click_only 0%nat)))
      = ptrace (@pstart one_click_only 0%nat) ++ t /\
    forallb is_script_event t = true.
Proof.
  apply (@first_script_click_is_success one_click_only 4%nat 3
           (@pstart one_click_only 0%nat) 1%nat).
  - lia.
  - reflexivity.
Defined.

(** [_post_comment] reports failure only when a call of its keyboard
    fallback raised: the trace ends with that call and the error line. *)
Theorem post_comment_false_after_fallback {drv : PageDriver} (page : Handle)
    (text : pystr) (s : PSt) :
  fst (post_comment page text s) = Ret false ->
  exists e l ev,
    ptrace (snd (post_comment page text s))
      = l ++ [ev; PLog Error (Some e)] /\
    is_fallback_call page text ev e.
Proof.
  unfold post_comment, ptry. intros H.
  bind_returns_in ltac:(apply post_through_input_returns).
  { discriminate. }
  clear Ha.
  match goal with
  | |- context [pbind (pcall _) _ ?st] => set (s1 := st) in *; clearbody s1
  end.
  unfold is_fallback_call.
  cbv beta iota delta [pbind pcall plog psleep pemit pret] in *.
  destruct (page_respond () (pworld s1) (KeyboardPress page KeyTab))
    as [[[]|e] w1]; cbv beta iota zeta in *; cbn [pworld ptrace] in *.
  2: { exists e. eexists _, _. split; [apply snoc_snoc|auto]. }
  destruct (page_respond () w1 (KeyboardType page text))
    as [[[]|e] w2]; cbv beta iota zeta in *; cbn [pworld ptrace] in *.
  2: { exists e. eexists _, _. split; [apply snoc_snoc|auto]. }
  destruct (page_respond () w2 (KeyboardPress page KeyEnter))
    as [[[]|e] w3]; cbv beta iota zeta in *; cbn [pworld ptrace] in *.
  2: { exists e. eexists _, _. split; [apply snoc_snoc|auto]. }
  destruct (page_draw w3). discriminate.
Qed.

Lemma post_comment_false_after_fallback_witness :
  exists e l ev,
    ptrace (snd (@post_comment page_gone 4%nat (lit "nice")
                   (@pstart page_gone tt)))
      = l ++ [ev; PLog Error (Some e)] /\
    is_fallback_call 4%nat (lit "nice") ev e.
Proof.
  apply (@post_comment_false_after_fallback page_gone 4%nat (lit "nice")
           (@pstart page_gone tt)).
  reflexivity.
Defined.

Lemma pemits_weaken {drv : PageDriver} {A} (P Q : PageEvent -> bool)
    (m : PM A) :
  (forall ev, P ev = true -> Q ev = true) -> pemits P m -> pemits Q m.
Proof.
  intros Hpq Hm s. destruct (Hm s) as (t & Ht & Hp). exists t.
  split; [exact Ht|]. rewrite forallb_forall in *. auto.
Qed.

(** The index [_reply_to_comment] draws among [count] located elements. *)
Lemma pick_index_yields {drv : PageDriver} (count : Z) :
  0 < count ->
  pyields (fun i => 0 <= i < count /\ i <= 5) (pick_index count).
Proof.
  intros Hc s i. unfold pick_index, prandint.
  destruct (Z.ltb_spec (Z.min (count - 1) 5) 0) as [Hlt|Hge]; [lia|].
  unfold pbind, prand, pret. destruct (page_draw (pworld s)) as [n w].
  cbn [fst]. intros [= <-].
  pose proof (Z.mod_pos_bound (Z.of_N n) (Z.min (count - 1) 5 - 0 + 1)).
  lia.
Qed.

(** With at least one element located, the draw of the index does not
    raise and the index is a position among the elements, at most 5; and
    every such position is drawn by some random number, position 5
    included: the sixth element can be chosen. *)
Theorem pick_index_valid {drv : PageDriver} (count : Z) (s : PSt) :
  0 < count ->
  (exists i,
     fst (pick_index count s) = Ret i /\ 0 <= i < count /\ i <= 5) /\
  (forall i,
     0 <= i <= Z.min (count - 1) 5 ->
     fst (page_draw (pworld s)) = Z.to_N i ->
     fst (pick_index count s) = Ret i).
Proof.
  intros Hc. pose proof (pick_index_yields count Hc s) as Hy.
  unfold pick_index, prandint in *.
  destruct (Z.ltb_spec (Z.min (count - 1) 5) 0) as [Hlt|Hge]; [lia|].
  unfold pbind, prand, pret in *. destruct (page_draw (pworld s)) as [n w].
  cbn [fst] in *. split.
  - eexists. split; [reflexivity|]. now apply Hy.
  - intros i Hi ->. rewrite Z2N.id by lia.
    rewrite Z.mod_small by lia. reflexivity.
Qed.

Lemma pick_index_valid_witness :
  fst (@pick_index (always_draws 5) 9 (@pstart (always_draws 5) tt)) = Ret 5.
Proof.
  destruct (@pick_index_valid (always_draws 5) 9
              (@pstart (always_draws 5) tt)) as [_ H].
  - lia.
  - apply H; [simpl; lia|reflexivity].
Defined.

Section ReplyEvents.

Context {drv : PageDriver}.

Lemma click_first_match_quiet (page : Handle) (sels : list Selector) :
  pemits not_error_line (click_first_match page sels).
Proof.
  induction sels as [|sel sels IH]; cbn [click_first_match];
    [apply pemits_ret|].
  apply pemits_bind; [unfold plog; compose_pemits|].
  intros [|]; [apply pemits_ret|exact IH].
Qed.

Lemma click_post_button_reply (page : Handle) (sels : list Selector) :
  pemits is_reply_event (click_post_button page sels).
Proof.
  induction sels as [|sel sels IH]; cbn [click_post_button];
    [apply pemits_ret|].
  apply pemits_bind; [compose_pemits|].
  intros [|]; [apply pemits_ret|exact IH].
Qed.

Lemma post_through_input_reply (page : Handle) (sels posts : list Selector)
    (text : pystr) :
  pemits is_reply_event (post_through_input page sels posts text).
Proof.
  induction sels as [|sel sels IH]; cbn [post_through_input];
    [apply pemits_ret|].
  apply pemits_bind.
  - apply pemits_try; [|intros e; unfold plog; compose_pemits].
    apply pemits_bind; [compose_pemits|intros count].
    destruct (0 <? count); [|apply pemits_ret].
    do 4 (apply pemits_bind; [unfold enter_text; compose_pemits|intros ?]).
    apply pemits_bind; [apply click_post_button_reply|intros ?].
    compose_pemits.
  - intros [|]; [apply pemits_ret|exact IH].
Qed.

Lemma reply_by_text_reply (page : Handle) (words : list ReplyWord)
    (text : pystr) :
  pemits is_reply_event (reply_by_text page words text).
Proof.
  induction words as [|word words IH]; cbn [reply_by_text];
    [apply pemits_ret|].
  apply pemits_bind; [compose_pemits|].
  intros [|]; [apply pemits_ret|exact IH].
Qed.

Lemma nth_call_reply {A} (c : Z -> PageCall A) (i : Z) :
  (forall r, among_first_six (PCall (c i) r) = (0 <=? i) && (i <=? 5)) ->
  0 <= i <= 5 -> pemits is_reply_event (pcall (c i)).
Proof.
  intros Hc Hi. apply pemits_call. intros r. unfold is_reply_event.
  rewrite Hc. cbn [not_error_line andb]. apply andb_true_intro. split; lia.
Qed.

Lemma reply_through_buttons_reply (page : Handle) (sels : list Selector)
    (text : pystr) :
  pemits is_reply_event (reply_through_buttons page sels text).
Proof.
  induction sels as [|sel sels IH]; cbn [reply_through_buttons];
    [apply pemits_ret|].
  apply pemits_bind.
  - apply pemits_try; [|intros e; unfold plog; compose_pemits].
    apply pemits_bind; [compose_pemits|intros count].
    destruct (Z.ltb_spec 0 count) as [Hc|Hc]; [|apply pemits_ret].
    apply (pemits_bind_yields _ _ _ _ (pemits_randint _ _ _)
             (pick_index_yields count Hc)).
    intros index Hi.
    apply pemits_bind;
      [apply (nth_call_reply (NthVisible page sel)); [reflexivity|lia]|].
    intros [|]; [|apply pemits_ret].
    apply pemits_bind;
      [apply (nth_call_reply (NthClick page sel)); [reflexivity|lia]|].
    intros _. apply pemits_bind; [compose_pemits|intros _].
    apply post_through_input_reply.
  - intros [|]; [apply pemits_ret|exact IH].
Qed.

Lemma reply_through_comments_reply (page : Handle) (sels : list Selector)
    (text : pystr) :
  pemits is_reply_event (reply_through_comments page sels text).
Proof.
  induction sels as [|sel sels IH]; cbn [reply_through_comments];
    [apply pemits_ret|].
  apply pemits_bind.
  - apply pemits_try; [|intros e; unfold plog; compose_pemits].
    apply pemits_bind; [compose_pemits|intros count].
    destruct (Z.ltb_spec 0 count) as [Hc|Hc]; [|apply pemits_ret].
    apply (pemits_bind_yields _ _ _ _ (pemits_randint _ _ _)
             (pick_index_yields count Hc)).
    intros index Hi.
    apply pemits_bind;
      [apply (nth_call_reply (NthClick page sel)); [reflexivity|lia]|].
    intros _. apply pemits_bind; [compose_pemits|intros _].
    apply reply_by_text_reply.
  - intros [|]; [apply pemits_ret|exact IH].
Qed.

Lemma reply_to_comment_events (page : Handle) (text : pystr) :
  pemits is_reply_event (reply_to_comment page text).
Proof.
  unfold reply_to_comment.
  apply pemits_try_returns; [apply reply_to_comment_body_returns|].
  apply pemits_bind; [compose_pemits|intros _].
  apply pemits_bind; [apply reply_through_buttons_reply|intros [|]];
    [apply pemits_ret|].
  apply pemits_bind; [apply reply_through_comments_reply|intros [|]];
    unfold plog; compose_pemits.
Qed.

End ReplyEvents.

(** In [_open_first_video], [_open_comments] and [_reply_to_comment] no
    failure of the page reaches the outer handler: these functions never
    log at error level. *)
Theorem page_failures_stay_inside {drv : PageDriver} (page : Handle)
    (text : pystr) :
  pemits not_error_line (open_first_video page) /\
  pemits not_error_line (open_comments page) /\
  pemits not_error_line (reply_to_comment page text).
Proof.
  repeat split.
  - unfold open_first_video.
    apply pemits_try_returns; [apply open_first_video_body_returns|].
    apply pemits_bind; [unfold plog; compose_pemits|intros [|]];
      [apply pemits_ret|].
    apply pemits_bind; [apply click_first_match_quiet|intros [|]];
      unfold plog; compose_pemits.
  - unfold open_comments.
    apply pemits_try_returns; [apply open_comments_body_returns|].
    apply pemits_bind; [unfold plog; compose_pemits|intros [|]];
      [apply pemits_ret|].
    apply pemits_bind; [apply click_first_match_quiet|intros [|]];
      unfold plog; compose_pemits.
  - apply (pemits_weaken is_reply_event); [|apply reply_to_comment_events].
    intros ev Hev. unfold is_reply_event in Hev.
    now apply andb_prop in Hev.
Qed.

(** [_reply_to_comment] addresses a comment or its reply button only by a
    position from 0 to 5. *)
Theorem reply_addresses_first_six {drv : PageDriver} (page : Handle)
    (text : pystr) :
  pemits among_first_six (reply_to_comment page text).
Proof.
  apply (pemits_weaken is_reply_event); [|apply reply_to_comment_events].
  intros ev Hev. unfold is_reply_event in Hev. now apply andb_prop in Hev.
Qed.

Lemma reply_to_comment_false_inv {drv : PageDriver} (page : Handle)
    (text : pystr) (s : PSt) :
  fst (reply_to_comment page text s) = Ret false ->
  exists l,
    ptrace (snd (reply_to_comment page text s)) = l ++ [PLog Warning None].
Proof.
  unfold reply_to_comment. intros H.
  rewrite (ptry_returns _ _ s (reply_to_comment_body_returns page text))
    in *.
  match goal with
  | H : fst (pbind ?m ?k ?st) = _ |- _ =>
      destruct (pbind_returns m k st) as ([] & _ & Hb);
        [compose_preturns|]; rewrite Hb in *; clear Hb
  end.
  bind_returns ltac:(apply reply_through_buttons_returns); [discriminate|].
  bind_returns ltac:(apply reply_through_comments_returns); [discriminate|].
  eexists. reflexivity.
Qed.

(** [_reply_to_comment] never raises: it returns [True], or [False] with
    the warning that no reply button was found as its last line. *)
Theorem reply_to_comment_result {drv : PageDriver} (page : Handle)
    (text : pystr) (s : PSt) :
  fst (reply_to_comment page text s) = Ret true \/
  fst (reply_to_comment page text s) = Ret false /\
  exists l,
    ptrace (snd (reply_to_comment page text s)) = l ++ [PLog Warning None].
Proof.
  assert (Hr : preturns (reply_to_comment page text)).
  { unfold reply_to_comment.
    apply preturns_try; [|intros e; unfold plog; compose_preturns].
    apply preturns_terminates, reply_to_comment_body_returns. }
  destruct (Hr s) as [[|] Hb]; [now left|right].
  split; [exact Hb|]. now apply reply_to_comment_false_inv.
Qed.

Lemma selector_clicks_none {drv : PageDriver} (page : Handle)
    (sels : list Selector) :
  pemits no_input (selector_clicks page sels 0).
Proof.
  induction sels as [|sel sels IH]; cbn [selector_clicks click_times];
    [apply pemits_ret|].
  apply pemits_bind; [unfold plog; compose_pemits|].
  intros [|]; [apply pemits_ret|exact IH].
Qed.

(** Asked for no click (a count of zero or less), [_click_next_button]
    reports success without a click or a key press. *)
Theorem no_clicks_is_success {drv : PageDriver} (page : Handle) (clicks : Z)
    (s : PSt) :
  clicks <= 0 ->
  exists t,
    fst (click_next_button page clicks s) = Ret true /\
    ptrace (snd (click_next_button page clicks s)) = ptrace s ++ t /\
    forallb no_input t = true.
Proof.
  intros Hc. unfold click_next_button. cbv zeta.
  replace (Z.to_nat clicks) with 0%nat by lia.
  cbn [script_clicks press_times].
  destruct (selector_clicks_none page (selectors NextButton 6) s)
    as (t & Ht & Hp).
  destruct (selector_clicks_returns page (selectors NextButton 6) 0 s)
    as [b Hb].
  exists t. unfold ptry, pbind, pret.
  destruct (selector_clicks page (selectors NextButton 6) 0 s) as [o s1].
  cbn [fst snd] in *. subst o. destruct b; cbn [fst snd]; auto.
Qed.

Lemma no_clicks_is_success_witness :
  exists t,
    fst (@click_next_button nothing_found 4%nat 0
           (@pstart nothing_found tt)) = Ret true /\
    ptrace (snd (@click_next_button nothing_found 4%nat 0
                   (@pstart nothing_found tt)))
      = ptrace (@pstart nothing_found tt) ++ t /\
    forallb no_input t = true.
Proof.
  apply (@no_clicks_is_success nothing_found 4%nat 0
           (@pstart nothing_found tt)).
  lia.
Defined.
